(** * ClangImporter: the module wrapper cache, adapter resolution and name lookup

    A shallow embedding of [lib/ClangImporter/ClangImporter.cpp]:
    [loadModule], [getWrapperModule], [getClangModuleForDecl],
    [isSwiftReservedName], [importName], [lookupValue],
    [getReexportedModules], the [ClangModule] constructor and
    [ClangModule::getAdapterModule].

    The importer is single threaded and mutates its caches in place, so
    every operation is a function from the importer state to a result and
    a new state. Objects allocated in the [ASTContext] arena are never
    freed: a pointer to a wrapper module is its index in the arena. *)

From stdpp Require Import base option list strings gmap.

Set Default Proof Using "Type".
Local Open Scope string_scope.
Local Open Scope list_scope.
Local Open Scope nat_scope.

(** ** Results of fallible code *)

(** [assert] aborts the compilation, dereferencing a pointer that was never
    allocated is undefined, and the recursion of [getAdapterModule] is
    bounded by fuel. The three are kept apart. *)
Inductive result (A : Type) : Type :=
| Ok (a : A)
| AssertionFailure
| InvalidPointer
| OutOfFuel.
Arguments Ok {A} a.
Arguments AssertionFailure {A}.
Arguments InvalidPointer {A}.
Arguments OutOfFuel {A}.

Definition result_bind {A B : Type} (f : A → result B) (r : result A) : result B :=
  match r with
  | Ok a => f a
  | AssertionFailure => AssertionFailure
  | InvalidPointer => InvalidPointer
  | OutOfFuel => OutOfFuel
  end.

#[global] Instance result_mbind : MBind result := @result_bind.
#[global] Instance result_mret : MRet result := @Ok.
#[global] Instance result_fmap : FMap result :=
  λ A B f, result_bind (λ a, Ok (f a)).

(** ** Foreign modules: [clang::Module] *)

(** A [clang::Module] has a [Name] and a [Parent]; the module map holds at
    most one module of a name under a parent, so the identity of a module
    (its address, the key of [ModuleWrappers]) is its chain of names. *)
Inductive clang_Module : Type :=
| TopLevelModule (Name : string)
| SubModule (Parent : clang_Module) (Name : string).

Definition clang_Name (M : clang_Module) : string :=
  match M with
  | TopLevelModule n => n
  | SubModule _ n => n
  end.

Definition clang_Parent (M : clang_Module) : option clang_Module :=
  match M with
  | TopLevelModule _ => None
  | SubModule p _ => Some p
  end.

(** [bool isSubModule() const { return Parent != 0; }] *)
Definition isSubModule (M : clang_Module) : bool :=
  match clang_Parent M with Some _ => true | None => false end.

(** [getTopLevelModule]: follow [Parent] while there is one. *)
Fixpoint getTopLevelModule (M : clang_Module) : clang_Module :=
  match M with
  | TopLevelModule n => TopLevelModule n
  | SubModule p _ => getTopLevelModule p
  end.

(** [getFullModuleName]: the names from the outermost module to this one,
    a ['.'] before each name once the result is not empty. *)
Fixpoint getFullModuleName (M : clang_Module) : string :=
  match M with
  | TopLevelModule n => n
  | SubModule p n =>
      let Result := getFullModuleName p in
      if decide (Result = "") then n else Result +:+ "." +:+ n
  end.

Fixpoint module_path (M : clang_Module) : list string :=
  match M with
  | TopLevelModule n => [n]
  | SubModule p n => n :: module_path p
  end.

Fixpoint module_of_path (l : list string) : option clang_Module :=
  match l with
  | [] => None
  | [n] => Some (TopLevelModule n)
  | n :: l' => (λ p, SubModule p n) <$> module_of_path l'
  end.

#[global] Instance clang_Module_eq_dec : EqDecision clang_Module.
Proof. solve_decision. Defined.

#[global] Instance clang_Module_countable : Countable clang_Module.
Proof.
  refine (inj_countable module_path module_of_path _).
  intros M. induction M as [n | p IH n]; [reflexivity |].
  simpl. rewrite IH. destruct p; reflexivity.
Defined.

(** ** Host modules *)

(** A [Module*] of the host compiler points either to a wrapper (a
    [ClangModule], by its index in the arena) or to a module of another
    kind, such as a hand-written overlay. *)
Inductive Module_ptr : Type :=
| ClangModule_ptr (w : nat)
| SwiftModule_ptr (id : nat).

#[global] Instance Module_ptr_eq_dec : EqDecision Module_ptr.
Proof. solve_decision. Defined.

(** [isa<ClangModule>(M)] *)
Definition isa_ClangModule (M : Module_ptr) : bool :=
  match M with ClangModule_ptr _ => true | SwiftModule_ptr _ => false end.

(** [llvm::PointerIntPair<T*, 1, bool>]: a nullable pointer and one bit. *)
Record PointerIntPair (T : Type) : Type := mkPointerIntPair {
  getPointer : option T;
  getInt : bool
}.
Arguments mkPointerIntPair {T} _ _.
Arguments getPointer {T} _.
Arguments getInt {T} _.

Definition setPointer {T : Type} (p : option T) (e : PointerIntPair T) : PointerIntPair T :=
  mkPointerIntPair p (getInt e).
Definition setInt {T : Type} (b : bool) (e : PointerIntPair T) : PointerIntPair T :=
  mkPointerIntPair (getPointer e) b.

(** The wrapper module: [class ClangModule : public LoadedModule]. [Name]
    and [DebugModuleName] are the fields set by the [LoadedModule]
    constructor, [Comp] is the component. *)
Record ClangModule : Type := mkClangModule {
  Name : string;
  DebugModuleName : string;
  Comp : nat;
  clangModule : clang_Module;
  adapterModule : PointerIntPair Module_ptr
}.

(** The constructor [ClangModule::ClangModule(ctx, DebugModuleName, owner,
    comp, clangModule)]: the identifier of the module is
    [ctx.getIdentifier(clangModule->Name)]. *)
Definition ClangModule_new (DebugModuleName : string) (comp : nat)
    (clangModule : clang_Module) : ClangModule :=
  {| Name := clang_Name clangModule;
     DebugModuleName := DebugModuleName;
     Comp := comp;
     clangModule := clangModule;
     adapterModule := mkPointerIntPair None false |}.

(** [bool ClangModule::isTopLevel() const] *)
Definition isTopLevel (this : ClangModule) : bool :=
  negb (isSubModule (clangModule this)).

(** [StringRef ClangModule::getTopLevelModuleName() const] *)
Definition getTopLevelModuleName (this : ClangModule) : string :=
  clang_Name (getTopLevelModule (clangModule this)).

(** ** The importer state *)

(** Modelled from the spec: the counters [Generation], [ImportCounter] and
    the generation of the [ASTContext] are declared in headers that are
    not at hand; the spec calls the generation a "monotonically increasing
    integer", so they are natural numbers and [++] adds one.

    The record is [ClangImporter::Implementation] together with the parts
    of the [ASTContext] it reaches through [SwiftContext]; the fields are
    the ones the code uses. *)
Record Implementation : Type := mkImplementation {
  (** [ASTContext]: the arena of wrapper modules, [ClangModule*] is an
      index into it *)
  Modules : list ClangModule;
  (** [ASTContext]: the number of [Component] objects allocated so far,
      [Component*] is the number the object got *)
  Components : nat;
  (** [ASTContext]: the counter behind [bumpGeneration()] *)
  CurrentGeneration : nat;
  (** [ASTContext::LoadedModules], a null entry is an absent one *)
  LoadedModules : gmap string Module_ptr;
  (** [llvm::DenseMap<clang::Module *, PointerIntPair<ClangModule *, 1, bool>>] *)
  ModuleWrappers : gmap clang_Module (PointerIntPair nat);
  Generation : nat;
  ImportCounter : nat;
  firstClangModule : option nat;
  (** observation only: the names [Ctx.getModule] was asked for, latest
      first *)
  getModuleQueries : list string;
  (** observation only: the wrappers [forAllVisibleModules] was called on
      by [loadModule], latest first *)
  forcedModules : list nat
}.

Definition set_Modules (f : list ClangModule → list ClangModule) (s : Implementation) :=
  mkImplementation (f (Modules s)) (Components s) (CurrentGeneration s)
    (LoadedModules s) (ModuleWrappers s) (Generation s) (ImportCounter s)
    (firstClangModule s) (getModuleQueries s) (forcedModules s).
Definition set_Components (f : nat → nat) (s : Implementation) :=
  mkImplementation (Modules s) (f (Components s)) (CurrentGeneration s)
    (LoadedModules s) (ModuleWrappers s) (Generation s) (ImportCounter s)
    (firstClangModule s) (getModuleQueries s) (forcedModules s).
Definition set_CurrentGeneration (f : nat → nat) (s : Implementation) :=
  mkImplementation (Modules s) (Components s) (f (CurrentGeneration s))
    (LoadedModules s) (ModuleWrappers s) (Generation s) (ImportCounter s)
    (firstClangModule s) (getModuleQueries s) (forcedModules s).
Definition set_LoadedModules
    (f : gmap string Module_ptr → gmap string Module_ptr) (s : Implementation) :=
  mkImplementation (Modules s) (Components s) (CurrentGeneration s)
    (f (LoadedModules s)) (ModuleWrappers s) (Generation s) (ImportCounter s)
    (firstClangModule s) (getModuleQueries s) (forcedModules s).
Definition set_ModuleWrappers
    (f : gmap clang_Module (PointerIntPair nat) → gmap clang_Module (PointerIntPair nat))
    (s : Implementation) :=
  mkImplementation (Modules s) (Components s) (CurrentGeneration s)
    (LoadedModules s) (f (ModuleWrappers s)) (Generation s) (ImportCounter s)
    (firstClangModule s) (getModuleQueries s) (forcedModules s).
Definition set_Generation (f : nat → nat) (s : Implementation) :=
  mkImplementation (Modules s) (Components s) (CurrentGeneration s)
    (LoadedModules s) (ModuleWrappers s) (f (Generation s)) (ImportCounter s)
    (firstClangModule s) (getModuleQueries s) (forcedModules s).
Definition set_ImportCounter (f : nat → nat) (s : Implementation) :=
  mkImplementation (Modules s) (Components s) (CurrentGeneration s)
    (LoadedModules s) (ModuleWrappers s) (Generation s) (f (ImportCounter s))
    (firstClangModule s) (getModuleQueries s) (forcedModules s).
Definition set_firstClangModule (f : option nat → option nat) (s : Implementation) :=
  mkImplementation (Modules s) (Components s) (CurrentGeneration s)
    (LoadedModules s) (ModuleWrappers s) (Generation s) (ImportCounter s)
    (f (firstClangModule s)) (getModuleQueries s) (forcedModules s).
Definition set_getModuleQueries (f : list string → list string) (s : Implementation) :=
  mkImplementation (Modules s) (Components s) (CurrentGeneration s)
    (LoadedModules s) (ModuleWrappers s) (Generation s) (ImportCounter s)
    (firstClangModule s) (f (getModuleQueries s)) (forcedModules s).
Definition set_forcedModules (f : list nat → list nat) (s : Implementation) :=
  mkImplementation (Modules s) (Components s) (CurrentGeneration s)
    (LoadedModules s) (ModuleWrappers s) (Generation s) (ImportCounter s)
    (firstClangModule s) (getModuleQueries s) (f (forcedModules s)).

(** A fresh importer: nothing loaded, nothing wrapped. *)
Definition fresh_Implementation : Implementation :=
  mkImplementation [] 0 0 ∅ ∅ 0 0 None [] [].

(** [new (SwiftContext.Allocate<Component>(1)) Component()] *)
Definition new_Component (s : Implementation) : nat * Implementation :=
  (Components s, set_Components S s).

(** [new (SwiftContext) ClangModule(...)]: the object goes to the end of
    the arena. *)
Definition new_ClangModule (M : ClangModule) (s : Implementation) : nat * Implementation :=
  (length (Modules s), set_Modules (λ l, l ++ [M]) s).

(** Reading through a [ClangModule*]. *)
Definition deref (this : nat) (s : Implementation) : result ClangModule :=
  match Modules s !! this with
  | Some M => Ok M
  | None => InvalidPointer
  end.

(** [ModuleWrappers[key]]: [operator[]] of a [DenseMap] default-constructs
    the entry of a key that has none; the entry read and the map after
    the access. *)
Definition ModuleWrappers_at (key : clang_Module)
    (m : gmap clang_Module (PointerIntPair nat))
    : PointerIntPair nat * gmap clang_Module (PointerIntPair nat) :=
  match m !! key with
  | Some e => (e, m)
  | None => (mkPointerIntPair None false, <[key := mkPointerIntPair None false]> m)
  end.

(** A write through the reference [ModuleWrappers[key]] returned. *)
Definition update_cacheEntry (key : clang_Module)
    (f : PointerIntPair nat → PointerIntPair nat) (s : Implementation) : Implementation :=
  set_ModuleWrappers
    (λ m, match m !! key with Some e => <[key := f e]> m | None => m end) s.

(** ** The wrapper cache *)

(** [ClangImporter::Implementation::getWrapperModule(importer, underlying,
    component)]; a null [component] is [None]. *)
Definition getWrapperModule (underlying : clang_Module) (component : option nat)
    (s : Implementation) : nat * Implementation :=
  let '(cacheEntry, wrappers) := ModuleWrappers_at underlying (ModuleWrappers s) in
  let s := set_ModuleWrappers (λ _, wrappers) s in
  match getPointer cacheEntry with
  | Some cachedModule => (cachedModule, s)
  | None =>
      let '(component, s) :=
        match component with
        | Some c => (c, s)
        | None => new_Component s
        end in
      let '(result, s) :=
        new_ClangModule
          (ClangModule_new (getFullModuleName underlying) component underlying) s in
      let s := update_cacheEntry underlying (setPointer (Some result)) s in
      (result, s)
  end.

(** [ClangImporter::Implementation::getClangModuleForDecl(D)]. Of the
    declaration only the module owning its definition or canonical
    declaration matters: [owning] is [D->getOwningModule()]. *)
Definition getClangModuleForDecl (owning : option clang_Module)
    (s : Implementation) : option nat * Implementation :=
  match owning with
  | None => (None, s)
  | Some M =>
      let M := getTopLevelModule M in
      let '(w, s) := getWrapperModule M None s in
      (Some w, s)
  end.

(** ** Collaborators of the module side *)

(** What the importer asks of the Clang instance and of the [ASTContext].
    Both are stateful: the loader is asked at an import location that is
    different on every call (the offset is [ImportCounter]), and the host
    module table may answer differently after earlier queries, so its
    answer depends on the queries made before. Neither calls back into
    the importer here. *)
Record Collaborators : Type := mkCollaborators {
  (** [Impl.Instance->loadModule(clangImportLoc, clangPath, AllVisible,
      false)], null when the module is not found *)
  Instance_loadModule : nat → list string → option clang_Module;
  (** [Ctx.getModule(Module::AccessPathTy({Name, SourceLoc()}))] *)
  Ctx_getModule : list string → string → option Module_ptr;
  (** [underlying->getExportedModules(exported)] *)
  getExportedModules : clang_Module → list clang_Module
}.

(** [SourceLoc] and [Module::AccessPathTy], [Module::ImportedModule] *)
Definition SourceLoc : Type := nat.
Definition AccessPathTy : Type := list (string * SourceLoc).
Definition ImportedModule : Type := AccessPathTy * Module_ptr.

Section ModuleSide.
Context (C : Collaborators).

(** A write to [this->adapterModule]. *)
Definition set_adapterModule (this : nat) (a : PointerIntPair Module_ptr)
    (s : Implementation) : Implementation :=
  set_Modules
    (λ l, match l !! this with
          | Some M =>
              <[this := mkClangModule (Name M) (DebugModuleName M) (Comp M)
                          (clangModule M) a]> l
          | None => l
          end) s.

(** [Module *ClangModule::getAdapterModule() const]. The recursive call
    is made on the wrapper of the top-level module; [fuel] bounds the depth
    of the recursion. *)
Fixpoint getAdapterModule_rec (fuel : nat) (this : nat) (s : Implementation)
    : result (option Module_ptr * Implementation) :=
  match fuel with
  | 0 => OutOfFuel
  | S fuel =>
      self ← deref this s;
      if negb (isTopLevel self) then
        let topLevel := getTopLevelModule (clangModule self) in
        let '(wrapper, s) := getWrapperModule topLevel (Some (Comp self)) s in
        getAdapterModule_rec fuel wrapper s
      else if negb (getInt (adapterModule self)) then
        let answer := Ctx_getModule C (getModuleQueries s) (Name self) in
        let s := set_getModuleQueries (cons (Name self)) s in
        match answer with
        | None => AssertionFailure (* isa<> of a null pointer *)
        | Some adapter =>
            r ← (if isa_ClangModule adapter then Ok (None, s)
                 else
                   let sharedModuleRef := LoadedModules s !! Name self in
                   if bool_decide (sharedModuleRef = None
                                   ∨ sharedModuleRef = Some adapter
                                   ∨ sharedModuleRef = Some (ClangModule_ptr this))
                   then Ok (Some adapter,
                            set_LoadedModules (<[Name self := adapter]>) s)
                   else AssertionFailure);
            let '(adapter, s) := (r : option Module_ptr * Implementation) in
            let s := set_adapterModule this (mkPointerIntPair adapter true) s in
            self ← deref this s;
            Ok (getPointer (adapterModule self), s)
        end
      else Ok (getPointer (adapterModule self), s)
  end.

(** A wrapper of a submodule recurses once, to a wrapper of a top-level
    module; see [getAdapterModule_fuel]. *)
Definition getAdapterModule (this : nat) (s : Implementation)
    : result (option Module_ptr * Implementation) :=
  getAdapterModule_rec 2 this s.

(** The body of the loop of [getReexportedModules]. *)
Definition reexport_one (comp : nat) (topLevelAdapter : option Module_ptr)
    (acc : result (list ImportedModule * Implementation)) (exportMod : clang_Module)
    : result (list ImportedModule * Implementation) :=
  '(exports, s) ← acc;
  let '(exportWrapper, s) := getWrapperModule exportMod (Some comp) s in
  '(actualExport, s) ← getAdapterModule exportWrapper s;
  let actualExport :=
    match actualExport with
    | None => ClangModule_ptr exportWrapper
    | Some a =>
        if bool_decide (Some a = topLevelAdapter) then ClangModule_ptr exportWrapper
        else a
    end in
  Ok (exports ++ [(([] : AccessPathTy), actualExport)], s).

(** [ClangImporter::getReexportedModules(module, exports)]; [module] is
    cast to a [ClangModule]. *)
Definition getReexportedModules (module : nat) (exports : list ImportedModule)
    (s : Implementation) : result (list ImportedModule * Implementation) :=
  self ← deref module s;
  let underlying := clangModule self in
  '(topLevelAdapter, s) ← getAdapterModule module s;
  let exported := getExportedModules C underlying in
  foldl (reexport_one (Comp self) topLevelAdapter) (Ok (exports, s)) exported.

(** Modelled from the spec: [Module::forAllVisibleModules] is defined in
    lib/AST/Module.cpp, which is not at hand. The spec has it "force eager
    traversal of that module's transitively visible imports (to
    materialize any further wrappers/adapters they require)" and notes
    that "the provided logic forces only one level eagerly". [loadModule]
    passes a callback that does nothing, so what the traversal does to the
    importer is to ask the wrapper for its re-exports. The call itself is
    recorded in [forcedModules]. *)
Definition forAllVisibleModules (this : nat) (thisPath : AccessPathTy)
    (s : Implementation) : result Implementation :=
  let s := set_forcedModules (cons this) s in
  '(_, s) ← getReexportedModules this [] s;
  Ok s.

(** [Module *ClangImporter::loadModule(importLoc, path)]; the result is
    null ([None]) or the wrapper. *)
Definition loadModule (importLoc : SourceLoc) (path : AccessPathTy)
    (s : Implementation) : result (option nat * Implementation) :=
  let clangPath := map fst path in
  let clangImportLoc := ImportCounter s in
  let s := set_ImportCounter S s in
  match Instance_loadModule C clangImportLoc clangPath with
  | None => Ok (None, s)
  | Some clangModule =>
      let '(cachedResult, wrappers) := ModuleWrappers_at clangModule (ModuleWrappers s) in
      let s := set_ModuleWrappers (λ _, wrappers) s in
      match getPointer cachedResult with
      | Some result =>
          if negb (getInt cachedResult) then
            (* the call of forAllVisibleModules is commented out here *)
            Ok (Some result, update_cacheEntry clangModule (setInt true) s)
          else Ok (Some result, s)
      | None =>
          let '(component, s) := new_Component s in
          let '(result, s) :=
            new_ClangModule
              (ClangModule_new (getFullModuleName clangModule) component clangModule) s in
          let s := update_cacheEntry clangModule (setPointer (Some result)) s in
          let s :=
            match firstClangModule s with
            | None => set_firstClangModule (λ _, Some result) s
            | Some _ => s
            end in
          let s := update_cacheEntry clangModule (setInt true) s in
          s ← forAllVisibleModules result path s;
          let s := set_Generation S s in
          let s := set_CurrentGeneration S s in
          Ok (Some result, s)
      end
  end.

(** ** Calls into the importer *)

Inductive Call : Type :=
| Call_loadModule (importLoc : SourceLoc) (path : AccessPathTy)
| Call_getWrapperModule (underlying : clang_Module) (component : option nat)
| Call_getClangModuleForDecl (owning : option clang_Module)
| Call_getAdapterModule (this : nat)
| Call_getReexportedModules (module : nat).

(** The state after a call that returns. *)
Definition exec (c : Call) (s : Implementation) : result Implementation :=
  match c with
  | Call_loadModule importLoc path => snd <$> loadModule importLoc path s
  | Call_getWrapperModule underlying component =>
      Ok (snd (getWrapperModule underlying component s))
  | Call_getClangModuleForDecl owning => Ok (snd (getClangModuleForDecl owning s))
  | Call_getAdapterModule this => snd <$> getAdapterModule this s
  | Call_getReexportedModules module => snd <$> getReexportedModules module [] s
  end.

Fixpoint run (cs : list Call) (s : Implementation) : result Implementation :=
  match cs with
  | [] => Ok s
  | c :: cs => s ← exec c s; run cs s
  end.

End ModuleSide.

(** ** Importing names *)

(** [llvm::StringRef::endswith] and [llvm::StringRef::substr]; [String.substring]
    clamps the start and the length to the string, as [substr] does. *)
Definition endswith (s Suffix : string) : bool :=
  (String.length Suffix <=? String.length s)%nat
  && String.eqb
       (String.substring (String.length s - String.length Suffix)
          (String.length Suffix) s)
       Suffix.

Definition substr (s : string) (Start N : nat) : string :=
  String.substring Start N s.

(** [clang::tok::TokenKind]: [tok::identifier] or the kind of a keyword. *)
Inductive TokenKind : Type :=
| tok_identifier
| tok_keyword (kw : nat).

#[global] Instance TokenKind_eq_dec : EqDecision TokenKind.
Proof. solve_decision. Defined.

(** [clang::Sema::LookupNameKind], the kinds the importer uses. *)
Inductive LookupNameKind : Type :=
| LookupOrdinaryName
| LookupTagName
| LookupObjCProtocolName.

#[global] Instance LookupNameKind_eq_dec : EqDecision LookupNameKind.
Proof. solve_decision. Defined.

Inductive NLKind : Type := UnqualifiedLookup | QualifiedLookup.

(** Where the dynamic class of a host declaration stands in
    [Decl] > [ValueDecl] > [TypeDecl]. *)
Inductive DeclClass : Type :=
| class_Decl
| class_ValueDecl
| class_TypeDecl.

#[global] Instance DeclClass_eq_dec : EqDecision DeclClass.
Proof. solve_decision. Defined.

(** A host declaration, as far as [lookupValue] looks at it: its address,
    its class and its [DeclContext]. *)
Record Decl : Type := mkDecl {
  Decl_addr : nat;
  Decl_class : DeclClass;
  getDeclContext : nat
}.

#[global] Instance Decl_eq_dec : EqDecision Decl.
Proof. solve_decision. Defined.

(** [isa<ValueDecl>] (the test of [dyn_cast]) and [isa<TypeDecl>] *)
Definition isa_ValueDecl (D : Decl) : bool :=
  match Decl_class D with class_Decl => false | _ => true end.
Definition isa_TypeDecl (D : Decl) : bool :=
  match Decl_class D with class_TypeDecl => true | _ => false end.

(** What name import and lookup ask of the Clang instance, of the
    declaration importer and of the host context. A Clang identifier is
    its spelling, a Clang declaration or macro is a number. *)
Record Frontend : Type := mkFrontend {
  (** [Identifier::isOperator()] *)
  isOperator : string → bool;
  (** [Idents.get(name).getTokenID()] *)
  getTokenID : string → TokenKind;
  (** [clangID->hasMacroDefinition()] and [pp.getMacroInfo(clangID)] *)
  hasMacroDefinition : string → bool;
  getMacroInfo : string → option nat;
  (** [Impl.importMacro(name, clangMacro)] *)
  importMacro : string → nat → option Decl;
  (** [sema.LookupName(lookupResult, 0)]: whether anything was found, and
      the declarations of the lookup result *)
  Sema_LookupName : string → LookupNameKind → bool * list nat;
  (** [decl->getUnderlyingDecl()] *)
  getUnderlyingDecl : nat → nat;
  (** [Impl.importDecl(decl)] *)
  importDecl : nat → option Decl;
  (** [Impl.getSwiftModule()], the standard library as a [DeclContext] *)
  getSwiftModule : option nat
}.

(** [static bool isSwiftReservedName(StringRef name)] *)
Definition isSwiftReservedName (name : string) : bool :=
  if String.eqb name "true" then true
  else if String.eqb name "false" then true
  else false.

Section NameSide.
Context (F : Frontend).

(** [clang::DeclarationName ClangImporter::Implementation::importName(Identifier
    name)]; the empty [DeclarationName] is [None], an identifier is its
    spelling. *)
Definition importName (name : string) : option string :=
  if isOperator F name then None
  else if isSwiftReservedName name then None
  else
    let ident := name in
    if bool_decide (getTokenID F ident ≠ tok_identifier) then None
    else Some ident.

(** The body of the first loop of [lookupValue]; the state is [results]
    and [FoundType]. *)
Definition accept_found (acc : list Decl * bool) (decl : nat) : list Decl * bool :=
  let '(results, FoundType) := acc in
  match importDecl F (getUnderlyingDecl F decl) with
  | Some swiftDecl =>
      if isa_ValueDecl swiftDecl then
        if bool_decide (Some (getDeclContext swiftDecl) ≠ getSwiftModule F) then
          (results ++ [swiftDecl], FoundType || isa_TypeDecl swiftDecl)
        else acc
      else acc
  | None => acc
  end.

(** The body of the second loop, over the result of the tag lookup. *)
Definition accept_tag (results : list Decl) (decl : nat) : list Decl :=
  match importDecl F (getUnderlyingDecl F decl) with
  | Some swiftDecl =>
      if isa_ValueDecl swiftDecl then results ++ [swiftDecl] else results
  | None => results
  end.

(** [void ClangImporter::lookupValue(module, accessPath, name, lookupKind,
    results)]. [results] is appended to. Next to the new [results] the
    model returns the calls of [sema.LookupName] made, in order: the name
    and the kind of each. *)
Definition lookupValue (module : option Module_ptr) (accessPath : AccessPathTy)
    (name : string) (lookupKind : NLKind) (results : list Decl)
    : result (list Decl * list (string * LookupNameKind)) :=
  if negb (length accessPath <=? 1)%nat then AssertionFailure
  else
    let mismatch :=
      match accessPath with
      | [(front, _)] => negb (String.eqb front name)
      | _ => false
      end in
    if mismatch then Ok (results, [])
    else
      let '(name, lookupNameKind) :=
        if endswith name "Proto"
        then (substr name 0 (String.length name - 5), LookupObjCProtocolName)
        else (name, LookupOrdinaryName) in
      match importName name with
      | None => Ok (results, [])
      | Some clangName =>
          let clangID := clangName in
          let results :=
            if hasMacroDefinition F clangID then
              match getMacroInfo F clangID with
              | Some clangMacro =>
                  match importMacro F name clangMacro with
                  | Some valueDecl => results ++ [valueDecl]
                  | None => results
                  end
              | None => results
              end
            else results in
          let '(found, lookupResult) := Sema_LookupName F clangName lookupNameKind in
          let lookups := [(clangName, lookupNameKind)] in
          let '(results, FoundType) :=
            if found then foldl accept_found (results, false) lookupResult
            else (results, false) in
          if bool_decide (lookupNameKind = LookupOrdinaryName) && negb FoundType then
            let '(found, lookupResult) := Sema_LookupName F clangName LookupTagName in
            let lookups := lookups ++ [(clangName, LookupTagName)] in
            if negb found then Ok (results, lookups)
            else Ok (foldl accept_tag results lookupResult, lookups)
          else Ok (results, lookups)
      end.

End NameSide.

(** * Vocabulary of the properties *)

(** The state after a miss in [getWrapperModule]. *)
Definition wrapped (underlying : clang_Module) (component : option nat)
    (s : Implementation) : Implementation :=
  let comp := default (Components s) component in
  mkImplementation
    (Modules s ++ [ClangModule_new (getFullModuleName underlying) comp underlying])
    (match component with Some _ => Components s | None => S (Components s) end)
    (CurrentGeneration s) (LoadedModules s)
    (<[underlying :=
         mkPointerIntPair (Some (length (Modules s)))
           (match ModuleWrappers s !! underlying with
            | Some e => getInt e
            | None => false
            end)]> (ModuleWrappers s))
    (Generation s) (ImportCounter s) (firstClangModule s)
    (getModuleQueries s) (forcedModules s).

(** The wrapper cached for a foreign module, if any. *)
Definition cached (s : Implementation) (m : clang_Module) : option nat :=
  e ← ModuleWrappers s !! m; getPointer e.

(** A wrapper that carries the names of the module it wraps. *)
Definition well_named (M : ClangModule) : Prop :=
  Name M = clang_Name (clangModule M)
  ∧ DebugModuleName M = getFullModuleName (clangModule M).

(** The same wrapper at a later time: only an unresolved adapter binding
    may have changed. *)
Definition same_wrapper (M M' : ClangModule) : Prop :=
  Name M' = Name M ∧ DebugModuleName M' = DebugModuleName M
  ∧ Comp M' = Comp M ∧ clangModule M' = clangModule M
  ∧ (getInt (adapterModule M) = true → adapterModule M' = adapterModule M).

(** The same cache entry at a later time: the pointer is kept once it is
    set, and so is the flag. *)
Definition same_entry (e e' : PointerIntPair nat) : Prop :=
  (∀ w, getPointer e = Some w → getPointer e' = Some w)
  ∧ (getInt e = true → getInt e' = true).

(** What every call guarantees of the state it leaves: wrappers and
    cache entries stay, and what is new is well formed. *)
Record grows (s s' : Implementation) : Prop := mkGrows {
  grows_Modules : ∀ w M, Modules s !! w = Some M →
    ∃ M', Modules s' !! w = Some M' ∧ same_wrapper M M';
  grows_new : ∀ w M', length (Modules s) ≤ w → Modules s' !! w = Some M' →
    well_named M';
  grows_entry : ∀ m e, ModuleWrappers s !! m = Some e →
    ∃ e', ModuleWrappers s' !! m = Some e' ∧ same_entry e e';
  grows_cached : ∀ m w, cached s' m = Some w →
    cached s m = Some w
    ∨ (length (Modules s) ≤ w ∧ ∃ M', Modules s' !! w = Some M' ∧ clangModule M' = m);
  grows_Generation : Generation s ≤ Generation s'
}.

(** The invariant of the cache and of the arena: a cached pointer points
    to a wrapper of the module it is cached for, and every wrapper carries
    the names of its module. *)
Record wf (s : Implementation) : Prop := mkWf {
  wf_cached : ∀ m w, cached s m = Some w →
    ∃ M, Modules s !! w = Some M ∧ clangModule M = m;
  wf_named : ∀ w M, Modules s !! w = Some M → well_named M
}.

(** A result that the model accounts for: the call returned, in a
    well-formed state, or the code aborted; the fuel did not run out. *)
Definition within_fuel {A : Type} (state : A → Implementation) (r : result A) : Prop :=
  match r with
  | Ok a => wf (state a)
  | OutOfFuel => False
  | _ => True
  end.

(** The traversals forced so far: each on a wrapper in the arena, none on
    the same wrapper twice. *)
Definition forced_once (s : Implementation) : Prop :=
  NoDup (forcedModules s) ∧ ∀ w, w ∈ forcedModules s → w < length (Modules s).

(** What only [loadModule] changes. *)
Definition same_counters (s s' : Implementation) : Prop :=
  Generation s' = Generation s ∧ CurrentGeneration s' = CurrentGeneration s
  ∧ ImportCounter s' = ImportCounter s ∧ firstClangModule s' = firstClangModule s
  ∧ forcedModules s' = forcedModules s.

(** A call that creates no wrapper for the module it was asked about and
    leaves the counters alone. *)
Definition quiet (s s' : Implementation) : Prop := grows s s' ∧ same_counters s s'.

(** [if (!Impl.firstClangModule) Impl.firstClangModule = result;] *)
Definition remember_first (w : nat) (s : Implementation) : Implementation :=
  match firstClangModule s with
  | None => set_firstClangModule (λ _, Some w) s
  | Some _ => s
  end.

(** The state in which [loadModule] starts the traversal of the imports
    of a module it has just wrapped. *)
Definition just_loaded (m : clang_Module) (s : Implementation) : Implementation :=
  update_cacheEntry m (setInt true)
    (remember_first (length (Modules s)) (wrapped m None (set_ImportCounter S s))).

(** [++Impl.Generation; Impl.SwiftContext.bumpGeneration();] *)
Definition bumpGeneration (s : Implementation) : Implementation :=
  set_CurrentGeneration S (set_Generation S s).

Definition is_loadModule (c : Call) : bool :=
  match c with Call_loadModule _ _ => true | _ => false end.

Section ModuleVocabulary.
Context (C : Collaborators).

(** Whether a call of [loadModule] in state [s] wraps a module that has
    no wrapper yet: the frontend loads the module and the cache misses. *)
Definition loads_new_module (path : AccessPathTy) (s : Implementation) : bool :=
  match Instance_loadModule C (ImportCounter s) (map fst path) with
  | Some m => bool_decide (cached s m = None)
  | None => false
  end.

Definition call_loads_new (c : Call) (s : Implementation) : bool :=
  match c with
  | Call_loadModule _ path => loads_new_module path s
  | _ => false
  end.

(** The number of calls of [loadModule] along a run that wrapped a module
    that had no wrapper. *)
Fixpoint modules_loaded (cs : list Call) (s : Implementation) : nat :=
  match cs with
  | [] => 0
  | c :: cs =>
      match exec C c s with
      | Ok s' => (if call_loads_new c s then 1 else 0) + modules_loaded cs s'
      | _ => 0
      end
  end.

End ModuleVocabulary.

Section NameVocabulary.
Context (F : Frontend).

(** Whether [lookupValue] goes on after its test of the access path: the
    path is empty or its one segment is [name]. *)
Definition accessPath_refers_to (accessPath : AccessPathTy) (name : string) : bool :=
  match accessPath with
  | [(front, _)] => String.eqb front name
  | _ => true
  end.

(** The host declarations the declaration importer gives for the
    declarations of a lookup result, in order. *)
Definition translated (lookupResult : list nat) : list Decl :=
  omap (λ decl, importDecl F (getUnderlyingDecl F decl)) lookupResult.

(** Not in the [DeclContext] of the standard library. *)
Definition outside_stdlib (D : Decl) : bool :=
  bool_decide (Some (getDeclContext D) ≠ getSwiftModule F).

(** What the loop over the ordinary or protocol lookup appends, and what
    the loop over the tag lookup appends. *)
Definition accepted (found : bool * list nat) : list Decl :=
  if found.1
  then List.filter (λ D, isa_ValueDecl D && outside_stdlib D) (translated found.2)
  else [].

Definition accepted_tags (found : bool * list nat) : list Decl :=
  if found.1 then List.filter isa_ValueDecl (translated found.2) else [].

(** What the macro probe appends. *)
Definition imported_macro (name clangID : string) : list Decl :=
  if hasMacroDefinition F clangID then
    match getMacroInfo F clangID with
    | Some clangMacro =>
        match importMacro F name clangMacro with
        | Some valueDecl => [valueDecl]
        | None => []
        end
    | None => []
    end
  else [].

(** Whether [lookupValue] gets as far as the lookup in the frontend: the
    access path refers to [name] and the name looked up, [base], has a
    foreign name. *)
Definition reaches_lookup (accessPath : AccessPathTy) (name base : string) : bool :=
  accessPath_refers_to accessPath name
  && match importName F base with Some _ => true | None => false end.

(** [lookupValue] step by step, with the two loops written as the lists
    they append: the name and the mode chosen, the translation of the
    name, the macro probe, the lookup in the chosen mode and the tag
    lookup. *)
Definition lookupValue_steps (accessPath : AccessPathTy) (name : string)
    (results : list Decl) : result (list Decl * list (string * LookupNameKind)) :=
  if negb (length accessPath <=? 1) then AssertionFailure
  else if negb (accessPath_refers_to accessPath name) then Ok (results, [])
  else
    let protocol := endswith name "Proto" in
    let base := if protocol then substr name 0 (String.length name - 5) else name in
    let mode := if protocol then LookupObjCProtocolName else LookupOrdinaryName in
    match importName F base with
    | None => Ok (results, [])
    | Some clangName =>
        let found := accepted (Sema_LookupName F clangName mode) in
        if negb protocol && negb (existsb isa_TypeDecl found) then
          Ok (results ++ imported_macro base clangName ++ found
                ++ accepted_tags (Sema_LookupName F clangName LookupTagName),
              [(clangName, mode); (clangName, LookupTagName)])
        else Ok (results ++ imported_macro base clangName ++ found,
                 [(clangName, mode)])
    end.

End NameVocabulary.

(** * A small world for examples *)

(** A frontend with a class and a struct tag [Point], a protocol
    [Widget], a macro [MAX], the keyword [int], and a struct tag [Shim]
    that the declaration importer maps to a type of the standard library,
    whose [DeclContext] is 0. *)
Definition PointWorld : Frontend :=
  {| isOperator := λ name, String.eqb name "+";
     getTokenID := λ name,
       if String.eqb name "int" then tok_keyword 1 else tok_identifier;
     hasMacroDefinition := λ name, String.eqb name "MAX";
     getMacroInfo := λ name, if String.eqb name "MAX" then Some 9 else None;
     importMacro := λ _ _, Some (mkDecl 100 class_ValueDecl 1);
     Sema_LookupName := λ name kind,
       match kind with
       | LookupOrdinaryName =>
           if String.eqb name "Point" then (true, [1]) else (false, [])
       | LookupTagName =>
           if String.eqb name "Point" then (true, [2])
           else if String.eqb name "Shim" then (true, [5])
           else (false, [])
       | LookupObjCProtocolName =>
           if String.eqb name "Widget" then (true, [3]) else (false, [])
       end;
     getUnderlyingDecl := λ decl, decl;
     importDecl := λ decl,
       match decl with
       | 1 => Some (mkDecl 11 class_TypeDecl 1)
       | 2 => Some (mkDecl 12 class_TypeDecl 1)
       | 3 => Some (mkDecl 13 class_TypeDecl 1)
       | 5 => Some (mkDecl 15 class_TypeDecl 0)
       | _ => None
       end;
     getSwiftModule := Some 0 |}.

(** A framework [Kit] with a submodule [Kit.UI] that it exports, and a
    hand-written overlay of the name [Kit] in the host module table. *)
Definition Kit : clang_Module := TopLevelModule "Kit".
Definition Kit_UI : clang_Module := SubModule Kit "UI".

Definition KitWorld : Collaborators :=
  {| Instance_loadModule := λ _ clangPath,
       if decide (clangPath = ["Kit"]) then Some Kit
       else if decide (clangPath = ["Kit"; "UI"]) then Some Kit_UI
       else None;
     Ctx_getModule := λ _ name,
       if decide (name = "Kit") then Some (SwiftModule_ptr 7) else None;
     getExportedModules := λ M, if decide (M = Kit) then [Kit_UI] else [] |}.

(** The state after a run that is known to return. *)
Definition state_after (r : result Implementation) : Implementation :=
  match r with Ok s => s | _ => fresh_Implementation end.

(** [Kit] wrapped through [getWrapperModule], as a declaration of [Kit]
    found by a lookup does; then its adapter resolved and [Kit] imported. *)
Definition Kit_wrapped : Implementation :=
  (getWrapperModule Kit None fresh_Implementation).2.
Definition Kit_calls : list Call :=
  [Call_getAdapterModule 0; Call_loadModule 0 [("Kit", 0)]].
Definition Kit_later : Implementation :=
  state_after (run KitWorld Kit_calls Kit_wrapped).

(** [Kit] imported in a fresh importer, with the traversal of its exports. *)
Definition Kit_loaded : Implementation :=
  state_after (run KitWorld [Call_loadModule 0 [("Kit", 0)]] fresh_Implementation).

(** [Kit.UI] wrapped first, then [Kit] imported twice. *)
Definition Kit_twice_calls : list Call :=
  [Call_getWrapperModule Kit_UI None;
   Call_loadModule 0 [("Kit", 0)]; Call_loadModule 1 [("Kit", 0)]].
Definition Kit_twice : Implementation :=
  state_after (run KitWorld Kit_twice_calls fresh_Implementation).

(** [Kit.UI] wrapped, and its adapter asked for. *)
Definition Kit_UI_wrapped : Implementation :=
  (getWrapperModule Kit_UI None fresh_Implementation).2.
Definition Kit_UI_resolved : Implementation :=
  state_after (snd <$> getAdapterModule KitWorld 0 Kit_UI_wrapped).
Definition Kit_UI_later : Implementation :=
  state_after (run KitWorld [Call_loadModule 0 [("Kit", 0)]] Kit_UI_resolved).

(** * More of the importer *)

(** ** Names from Clang *)

(** [clang::DeclarationName], as far as the importer tells names apart:
    the empty name, an identifier by its spelling, and the other kinds
    (selectors, constructors, operators and so on). *)
Inductive DeclarationName : Type :=
| DeclarationName_empty
| DeclarationName_Identifier (II : string)
| DeclarationName_other (NameKind : nat).

(** [Identifier ClangImporter::Implementation::importName(clang::DeclarationName
    name, StringRef suffix)]; the empty [Identifier] is [None]. *)
Definition importName_fromClang (name : DeclarationName) (suffix : string)
    : option string :=
  match name with
  | DeclarationName_Identifier nameStr =>
      if String.eqb suffix "" then
        if isSwiftReservedName nameStr then None else Some nameStr
      else
        let nameBuf := nameStr +:+ suffix in
        if isSwiftReservedName nameBuf then None else Some nameBuf
  | _ => None
  end.

(** ** Visible declarations *)

(** What the enumeration of visible declarations asks of Clang and of the
    host declarations: the name of a Clang declaration, whether it is
    private to its module, the module a host declaration belongs to, and
    the declarations [sema.LookupVisibleDecls] reports for the translation
    unit, in the order it reports them. *)
Record VisibleDeclarations : Type := mkVisibleDeclarations {
  NamedDecl_getName : nat → string;
  NamedDecl_isModulePrivate : nat → bool;
  getModuleContext : Decl → Module_ptr;
  Sema_LookupVisibleDecls : list nat
}.

Section VisibleSide.
Context (F : Frontend) (V : VisibleDeclarations).

(** The body of the loop of [FoundDecl]: [NextConsumer.foundDecl(VD)] when
    there is no filter or the module of [VD] is the filter. The state is
    what the next consumer has been given. *)
Definition forward_to_NextConsumer (ModuleFilter : option Module_ptr)
    (consumed : list Decl) (VD : Decl) : list Decl :=
  if match ModuleFilter with
     | None => true
     | Some M => bool_decide (getModuleContext V VD = M)
     end
  then consumed ++ [VD]
  else consumed.

(** [ImportingVisibleDeclConsumer::FoundDecl(ND, Hiding, Ctx, InBaseClass)] *)
Definition FoundDecl (ModuleFilter : option Module_ptr) (ND : nat)
    (consumed : list Decl) : result (list Decl) :=
  if String.eqb (NamedDecl_getName V ND) "" then Ok consumed
  else if NamedDecl_isModulePrivate V ND then Ok consumed
  else
    '(Results, _) ←
      lookupValue F None [] (NamedDecl_getName V ND) UnqualifiedLookup [];
    Ok (foldl (forward_to_NextConsumer ModuleFilter) consumed Results).

(** [ClangImporter::lookupVisibleDecls(clang::VisibleDeclConsumer &)] with
    an [ImportingVisibleDeclConsumer]: [FoundDecl] for each declaration
    reported. *)
Definition lookupVisibleDecls_into (ModuleFilter : option Module_ptr)
    (consumed : list Decl) : result (list Decl) :=
  foldl (λ acc ND, consumed ← acc; FoundDecl ModuleFilter ND consumed)
    (Ok consumed) (Sema_LookupVisibleDecls V).

(** [ClangImporter::lookupVisibleDecls(VisibleDeclConsumer &Consumer)] *)
Definition lookupVisibleDecls (consumed : list Decl) : result (list Decl) :=
  lookupVisibleDecls_into None consumed.

(** [ClangImporter::lookupVisibleDecls(M, AccessPath, Consumer, LookupKind)];
    [filterByModule(M)] with a null [M] filters nothing. *)
Definition lookupVisibleDecls_in (M : option Module_ptr) (AccessPath : AccessPathTy)
    (LookupKind : NLKind) (consumed : list Decl) : result (list Decl) :=
  lookupVisibleDecls_into M consumed.

(** What [lookupValue] finds for a name in a fresh vector and with no
    access path, and what [FoundDecl] forwards for a declaration. *)
Definition found_by_name (name : string) : list Decl :=
  match lookupValue F None [] name UnqualifiedLookup [] with
  | Ok (Results, _) => Results
  | _ => []
  end.

Definition passes_filter (ModuleFilter : option Module_ptr) (VD : Decl) : bool :=
  match ModuleFilter with
  | None => true
  | Some M => bool_decide (getModuleContext V VD = M)
  end.

Definition forwarded_for (ModuleFilter : option Module_ptr) (ND : nat) : list Decl :=
  if String.eqb (NamedDecl_getName V ND) "" then []
  else if NamedDecl_isModulePrivate V ND then []
  else List.filter (passes_filter ModuleFilter) (found_by_name (NamedDecl_getName V ND)).

End VisibleSide.

(** ** The steps the module side is made of *)

(** The state after [getAdapterModule] has resolved the binding of the
    wrapper [this], [M] before the call, with the answer [adapter] of the
    host module table: a wrapper as answer gives a null adapter, another
    module is registered in [LoadedModules] and becomes the adapter. *)
Definition resolved (this : nat) (M : ClangModule) (adapter : Module_ptr)
    (s : Implementation) : Implementation :=
  let s := set_getModuleQueries (cons (Name M)) s in
  if isa_ClangModule adapter
  then set_adapterModule this (mkPointerIntPair None true) s
  else set_adapterModule this (mkPointerIntPair (Some adapter) true)
         (set_LoadedModules (<[Name M := adapter]>) s).

(** The writes of the module side, one at a time. Every call that returns
    is a sequence of them ([exec_steps]). *)
Inductive importer_step (C : Collaborators) : Implementation → Implementation → Prop :=
| step_wrap m c s :
    cached s m = None → importer_step C s (wrapped m c s)
| step_resolve this M adapter s :
    Modules s !! this = Some M →
    isTopLevel M = true →
    getInt (adapterModule M) = false →
    Ctx_getModule C (getModuleQueries s) (Name M) = Some adapter →
    (isa_ClangModule adapter = false →
     LoadedModules s !! Name M = None
     ∨ LoadedModules s !! Name M = Some adapter
     ∨ LoadedModules s !! Name M = Some (ClangModule_ptr this)) →
    importer_step C s (resolved this M adapter s)
| step_flag m s :
    importer_step C s (update_cacheEntry m (setInt true) s)
| step_location s :
    importer_step C s (set_ImportCounter S s)
| step_first w s :
    importer_step C s (remember_first w s)
| step_forced this s :
    importer_step C s (set_forcedModules (cons this) s)
| step_bump s :
    importer_step C s (bumpGeneration s).

(** ** Invariants of the wrappers *)

(** Every wrapper in the arena is the one the cache holds for the module
    it wraps. *)
Definition unique_wrappers (s : Implementation) : Prop :=
  ∀ w M, Modules s !! w = Some M → cached s (clangModule M) = Some w.

(** An adapter is never a wrapper, only wrappers of top-level modules have
    a resolved binding, and a resolved adapter is the module registered
    under the name of its wrapper. *)
Record adapters_wf (s : Implementation) : Prop := mkAdaptersWf {
  adapter_is_overlay : ∀ w M a, Modules s !! w = Some M →
    getPointer (adapterModule M) = Some a → isa_ClangModule a = false;
  adapter_of_top : ∀ w M, Modules s !! w = Some M →
    adapterModule M ≠ mkPointerIntPair None false → isTopLevel M = true;
  adapter_registered : ∀ w M a, Modules s !! w = Some M →
    getPointer (adapterModule M) = Some a → LoadedModules s !! Name M = Some a
}.


(** ** More of the small world *)

(** The declarations visible in [PointWorld]: the class and the struct
    [Point], the protocol [Widget], an unnamed declaration, a
    module-private [Secret] and the macro-backed [MAX]. Host declarations
    11 to 13 belong to the wrapper 0, the others to the wrapper 1. *)
Definition PointVisible : VisibleDeclarations :=
  {| NamedDecl_getName := λ ND,
       match ND with
       | 1 | 2 => "Point" | 3 => "Widget" | 6 => "Secret" | 7 => "MAX"
       | _ => ""
       end;
     NamedDecl_isModulePrivate := λ ND, match ND with 6 => true | _ => false end;
     getModuleContext := λ VD,
       if (Decl_addr VD <=? 13) then ClangModule_ptr 0 else ClangModule_ptr 1;
     Sema_LookupVisibleDecls := [1; 4; 6; 7; 3] |}.

(** [Kit] imported, a declaration of [Kit.UI] looked at, the re-exports of
    [Kit] asked for, and a failed import. *)
Definition Kit_session : list Call :=
  [Call_loadModule 0 [("Kit", 0)]; Call_getClangModuleForDecl (Some Kit_UI);
   Call_getReexportedModules 0; Call_loadModule 1 [("Nope", 0)];
   Call_getAdapterModule 1].
Definition Kit_used : Implementation :=
  state_after (run KitWorld Kit_session fresh_Implementation).

(** After the session, [Kit.UI] wrapped and [Kit] imported twice more. *)
Definition Kit_reused : Implementation :=
  state_after (run KitWorld Kit_twice_calls Kit_used).

(** * Properties *)

(** ** The wrapper cache *)

Ltac unfold_state :=
  unfold update_cacheEntry, new_ClangModule, new_Component,
    set_Modules, set_Components, set_CurrentGeneration, set_LoadedModules,
    set_ModuleWrappers, set_Generation, set_ImportCounter,
    set_firstClangModule, set_getModuleQueries, set_forcedModules in *;
  simpl in *.

Lemma set_ModuleWrappers_same s :
  set_ModuleWrappers (λ _, ModuleWrappers s) s = s.
Proof. by destruct s. Qed.

Lemma getWrapperModule_hit m c s w :
  cached s m = Some w → getWrapperModule m c s = (w, s).
Proof.
  unfold cached, getWrapperModule, ModuleWrappers_at.
  destruct (ModuleWrappers s !! m) as [e|] eqn:He; simpl; [|done].
  intros ->. by rewrite set_ModuleWrappers_same.
Qed.

Lemma getWrapperModule_miss m c s :
  cached s m = None →
  getWrapperModule m c s = (length (Modules s), wrapped m c s).
Proof.
  unfold cached, getWrapperModule, ModuleWrappers_at, wrapped.
  destruct (ModuleWrappers s !! m) as [e|] eqn:He; simpl.
  - intros ->. destruct c as [c|]; unfold_state; rewrite He; reflexivity.
  - intros _. destruct c as [c|]; unfold_state;
      rewrite lookup_insert_eq, insert_insert_eq; reflexivity.
Qed.

Lemma cached_wrapped m c s : cached (wrapped m c s) m = Some (length (Modules s)).
Proof. unfold cached, wrapped; simpl. by rewrite lookup_insert_eq. Qed.

Lemma cached_wrapped_ne m m' c s : m ≠ m' → cached (wrapped m c s) m' = cached s m'.
Proof. intros. unfold cached, wrapped; simpl. by rewrite lookup_insert_ne. Qed.

Lemma getWrapperModule_cached m c s w s' :
  getWrapperModule m c s = (w, s') → cached s' m = Some w.
Proof.
  destruct (cached s m) as [w0|] eqn:Hc.
  - rewrite (getWrapperModule_hit _ _ _ _ Hc). by intros [= <- <-].
  - rewrite (getWrapperModule_miss _ _ _ Hc). intros [= <- <-]. apply cached_wrapped.
Qed.

(** ** What every call preserves *)

Lemma same_wrapper_refl M : same_wrapper M M.
Proof. by repeat split. Qed.

Lemma same_wrapper_trans M1 M2 M3 :
  same_wrapper M1 M2 → same_wrapper M2 M3 → same_wrapper M1 M3.
Proof.
  intros (N1&D1&C1&U1&A1) (N2&D2&C2&U2&A2). repeat split; try congruence.
  intros Hi. rewrite A2, A1; [done..|]. by rewrite A1.
Qed.

Lemma grows_refl s : grows s s.
Proof.
  split; try done.
  - intros w M ?. exists M. split; [done | apply same_wrapper_refl].
  - intros w M' Hle Hw. apply lookup_lt_Some in Hw. lia.
  - intros m e ?. exists e. by repeat split.
  - by left.
Qed.

Lemma grows_length s s' : grows s s' → length (Modules s) ≤ length (Modules s').
Proof.
  intros G. destruct (decide (length (Modules s) = 0)) as [|Hn]; [lia|].
  destruct (lookup_lt_is_Some_2 (Modules s) (length (Modules s) - 1)) as [M HM]; [lia|].
  destruct (grows_Modules _ _ G _ _ HM) as (M' & HM' & _).
  apply lookup_lt_Some in HM'. lia.
Qed.

Lemma grows_trans s1 s2 s3 : grows s1 s2 → grows s2 s3 → grows s1 s3.
Proof.
  intros G1 G2. split.
  - intros w M HM.
    destruct (grows_Modules _ _ G1 _ _ HM) as (M2 & HM2 & S12).
    destruct (grows_Modules _ _ G2 _ _ HM2) as (M3 & HM3 & S23).
    exists M3. split; [done|]. by eapply same_wrapper_trans.
  - intros w M3 Hle HM3.
    destruct (decide (length (Modules s2) ≤ w)) as [Hw|Hw].
    + by eapply (grows_new _ _ G2).
    + destruct (lookup_lt_is_Some_2 (Modules s2) w) as [M2 HM2]; [lia|].
      destruct (grows_Modules _ _ G2 _ _ HM2) as (M3' & HM3' & (?&?&?&?&?)).
      assert (M3' = M3) as -> by congruence.
      destruct (grows_new _ _ G1 _ _ Hle HM2) as [? ?].
      split; congruence.
  - intros m e He.
    destruct (grows_entry _ _ G1 _ _ He) as (e2 & He2 & [P12 I12]).
    destruct (grows_entry _ _ G2 _ _ He2) as (e3 & He3 & [P23 I23]).
    exists e3. split; [done|]. split; auto.
  - intros m w Hc.
    destruct (grows_cached _ _ G2 _ _ Hc) as [Hc2 | (Hle & M3 & HM3 & Hm)].
    + destruct (grows_cached _ _ G1 _ _ Hc2) as [? | (Hle & M2 & HM2 & Hm)]; [by left|].
      right. split; [done|].
      destruct (grows_Modules _ _ G2 _ _ HM2) as (M3 & HM3 & (?&?&?&?&?)).
      exists M3. split; [done | congruence].
    + right. split; [|by eauto]. pose proof (grows_length _ _ G1). lia.
  - pose proof (grows_Generation _ _ G1). pose proof (grows_Generation _ _ G2). lia.
Qed.

Lemma wf_fresh : wf fresh_Implementation.
Proof. split; intros ??; unfold cached; simpl; by rewrite ?lookup_empty. Qed.

Lemma wf_grows s s' : wf s → grows s s' → wf s'.
Proof.
  intros W G. split.
  - intros m w Hc.
    destruct (grows_cached _ _ G _ _ Hc) as [Hc0 | (_ & M' & ? & ?)]; [|by eauto].
    destruct (wf_cached _ W _ _ Hc0) as (M & HM & Hm).
    destruct (grows_Modules _ _ G _ _ HM) as (M' & HM' & (?&?&?&?&?)).
    exists M'. split; [done | congruence].
  - intros w M' HM'.
    destruct (decide (length (Modules s) ≤ w)) as [Hw|Hw].
    + by eapply (grows_new _ _ G).
    + destruct (lookup_lt_is_Some_2 (Modules s) w) as [M HM]; [lia|].
      destruct (grows_Modules _ _ G _ _ HM) as (M2 & HM2 & (?&?&?&?&?)).
      assert (M2 = M') as -> by congruence.
      destruct (wf_named _ W _ _ HM). split; congruence.
Qed.

Lemma wrapped_grows m c s : cached s m = None → grows s (wrapped m c s).
Proof.
  intros Hc. split; simpl.
  - intros w M HM. exists M. split; [|apply same_wrapper_refl].
    by apply lookup_app_l_Some.
  - intros w M' Hle HM'.
    rewrite lookup_app_r in HM' by done.
    destruct (w - length (Modules s)) as [|k]; simpl in HM'; [|done].
    injection HM' as <-. by split.
  - intros m' e He. destruct (decide (m = m')) as [<-|Hne].
    + rewrite lookup_insert_eq. eexists. split; [done|].
      unfold cached in Hc. rewrite He in *. simpl in *. split; simpl; [|done].
      intros w Hw. congruence.
    + rewrite lookup_insert_ne by done. exists e. by repeat split.
  - intros m' w Hw. destruct (decide (m = m')) as [<-|Hne].
    + rewrite cached_wrapped in Hw. injection Hw as <-. right. split; [done|].
      eexists. split; [apply list_lookup_middle; done | done].
    + rewrite cached_wrapped_ne in Hw by done. by left.
  - done.
Qed.

Lemma getWrapperModule_grows m c s w s' :
  getWrapperModule m c s = (w, s') → grows s s'.
Proof.
  destruct (cached s m) as [w0|] eqn:Hc.
  - rewrite (getWrapperModule_hit _ _ _ _ Hc). intros [= <- <-]. apply grows_refl.
  - rewrite (getWrapperModule_miss _ _ _ Hc). intros [= <- <-]. by apply wrapped_grows.
Qed.

Lemma same_counters_refl s : same_counters s s.
Proof. by repeat split. Qed.

Lemma same_counters_trans s1 s2 s3 :
  same_counters s1 s2 → same_counters s2 s3 → same_counters s1 s3.
Proof. intros (?&?&?&?&?) (?&?&?&?&?). repeat split; congruence. Qed.

Lemma quiet_refl s : quiet s s.
Proof. split; [apply grows_refl | apply same_counters_refl]. Qed.

Lemma quiet_trans s1 s2 s3 : quiet s1 s2 → quiet s2 s3 → quiet s1 s3.
Proof.
  intros [? ?] [? ?]. split; [by eapply grows_trans | by eapply same_counters_trans].
Qed.

Lemma getWrapperModule_quiet m c s w s' :
  getWrapperModule m c s = (w, s') → quiet s s'.
Proof.
  intros H. split; [by eapply getWrapperModule_grows|].
  destruct (cached s m) as [w0|] eqn:Hc.
  - rewrite (getWrapperModule_hit _ _ _ _ Hc) in H. injection H as <- <-.
    apply same_counters_refl.
  - rewrite (getWrapperModule_miss _ _ _ Hc) in H. injection H as <- <-.
    by repeat split.
Qed.

Lemma set_adapterModule_Modules this a s M :
  Modules s !! this = Some M →
  Modules (set_adapterModule this a s)
  = <[this := mkClangModule (Name M) (DebugModuleName M) (Comp M) (clangModule M) a]>
      (Modules s).
Proof. intros H. unfold set_adapterModule. unfold_state. by rewrite H. Qed.

Lemma set_adapterModule_quiet this a s M :
  Modules s !! this = Some M → getInt (adapterModule M) = false →
  quiet s (set_adapterModule this a s).
Proof.
  intros HM Hi. split; [|by repeat split].
  pose proof (lookup_lt_Some _ _ _ HM) as Hlt.
  split.
  - intros w M0 HM0. rewrite (set_adapterModule_Modules _ _ _ _ HM).
    destruct (decide (this = w)) as [<-|Hne].
    + rewrite list_lookup_insert_eq by done. eexists. split; [done|].
      assert (M0 = M) as -> by congruence.
      repeat split; simpl. congruence.
    + rewrite list_lookup_insert_ne by done. exists M0.
      split; [done | apply same_wrapper_refl].
  - intros w M' Hle HM'. apply lookup_lt_Some in HM'.
    rewrite (set_adapterModule_Modules _ _ _ _ HM), length_insert in HM'. lia.
  - intros m e He. exists e. by repeat split.
  - intros m w Hc. by left.
  - done.
Qed.

Lemma quiet_core s s1 :
  Modules s1 = Modules s → ModuleWrappers s1 = ModuleWrappers s →
  same_counters s s1 → quiet s s1.
Proof.
  intros HM HW Hc. split; [|done]. split.
  - intros w M ?. exists M. rewrite HM. split; [done | apply same_wrapper_refl].
  - intros w M' Hle Hw. rewrite HM in Hw. apply lookup_lt_Some in Hw. lia.
  - intros m e ?. exists e. rewrite HW. by repeat split.
  - intros m w Hw. left. unfold cached in *. by rewrite <- HW.
  - destruct Hc as [-> _]. done.
Qed.

Lemma deref_Ok this s M : deref this s = Ok M ↔ Modules s !! this = Some M.
Proof. unfold deref. destruct (Modules s !! this); simpl; split; congruence. Qed.

(** One unfolding of [getAdapterModule_rec] at a valid pointer. *)
Ltac adapter_step HM :=
  cbn [getAdapterModule_rec];
  rewrite (proj2 (deref_Ok _ _ _) HM);
  cbn [mbind result_mbind result_bind].

Section ModuleSideProperties.
Context (C : Collaborators).

(** At a wrapper of a top-level module whose binding is resolved: no
    query, no write. *)
Lemma getAdapterModule_rec_resolved fuel this s M :
  Modules s !! this = Some M → isTopLevel M = true →
  getInt (adapterModule M) = true →
  getAdapterModule_rec C (S fuel) this s = Ok (getPointer (adapterModule M), s).
Proof. intros HM Ht Hi. adapter_step HM. by rewrite Ht, Hi. Qed.

(** At a wrapper of a top-level module whose binding is not resolved:
    the table is asked once and the answer is written to the binding. *)
Lemma getAdapterModule_rec_resolve fuel this s M r s' :
  Modules s !! this = Some M → isTopLevel M = true →
  getInt (adapterModule M) = false →
  getAdapterModule_rec C (S fuel) this s = Ok (r, s') →
  ∃ s1, Modules s1 = Modules s ∧ ModuleWrappers s1 = ModuleWrappers s
        ∧ same_counters s s1
        ∧ getModuleQueries s1 = Name M :: getModuleQueries s
        ∧ s' = set_adapterModule this (mkPointerIntPair r true) s1.
Proof.
  intros HM Ht Hi. adapter_step HM. rewrite Ht, Hi. simpl negb. cbv iota.
  destruct (Ctx_getModule C (getModuleQueries s) (Name M)) as [adapter|]; [|done].
  set (s0 := set_getModuleQueries (cons (Name M)) s).
  assert (∀ a s1, Modules s1 = Modules s →
    (self ← deref this (set_adapterModule this (mkPointerIntPair a true) s1);
     Ok (getPointer (adapterModule self), set_adapterModule this (mkPointerIntPair a true) s1))
    = Ok (a, set_adapterModule this (mkPointerIntPair a true) s1)) as Hret.
  { intros a s1 Hs1. unfold deref.
    rewrite (set_adapterModule_Modules _ _ _ M) by (by rewrite Hs1).
    rewrite list_lookup_insert_eq by (rewrite Hs1; by eapply lookup_lt_Some).
    reflexivity. }
  destruct (isa_ClangModule adapter); cbn [mbind result_mbind result_bind].
  - rewrite Hret by done. intros [= <- <-]. exists s0. by repeat split.
  - case_bool_decide; cbn [mbind result_mbind result_bind]; [|done].
    rewrite Hret by done. intros [= <- <-].
    exists (set_LoadedModules <[Name M:=adapter]> s0). by repeat split.
Qed.

Lemma getAdapterModule_rec_quiet fuel this s r s' :
  getAdapterModule_rec C fuel this s = Ok (r, s') → quiet s s'.
Proof.
  revert this s. induction fuel as [|fuel IH]; intros this s; [done|].
  destruct (Modules s !! this) as [M|] eqn:HM;
    [|cbn [getAdapterModule_rec]; unfold deref; by rewrite HM].
  destruct (isTopLevel M) eqn:Ht.
  - destruct (getInt (adapterModule M)) eqn:Hi.
    + rewrite (getAdapterModule_rec_resolved _ _ _ _ HM Ht Hi).
      intros [= <- <-]. apply quiet_refl.
    + intros H.
      destruct (getAdapterModule_rec_resolve _ _ _ _ _ _ HM Ht Hi H)
        as (s1 & Hm & Hw & Hc & _ & ->).
      eapply quiet_trans; [by apply quiet_core|].
      eapply set_adapterModule_quiet; [by rewrite Hm | done].
  - adapter_step HM. rewrite Ht. simpl negb. cbv iota.
    destruct (getWrapperModule _ _ s) as [wrapper s1] eqn:Hw.
    intros H. eapply quiet_trans; [by eapply getWrapperModule_quiet | by eapply IH].
Qed.

Lemma grows_cached_keep s s' m w : grows s s' → cached s m = Some w → cached s' m = Some w.
Proof.
  intros G. unfold cached.
  destruct (ModuleWrappers s !! m) as [e|] eqn:He; [|done]. simpl. intros Hp.
  destruct (grows_entry _ _ G _ _ He) as (e' & -> & [Hk _]). simpl. auto.
Qed.

Lemma isSubModule_getTopLevelModule m : isSubModule (getTopLevelModule m) = false.
Proof. induction m; done. Qed.

(** The state of a binding after a call at a wrapper of a top-level
    module: resolved, holding the result. *)
Lemma getAdapterModule_rec_top fuel this s M r s' :
  Modules s !! this = Some M → isTopLevel M = true →
  getAdapterModule_rec C (S fuel) this s = Ok (r, s') →
  ∃ M', Modules s' !! this = Some M' ∧ same_wrapper M M'
        ∧ adapterModule M' = mkPointerIntPair r true
        ∧ (getInt (adapterModule M) = true → s' = s)
        ∧ (getInt (adapterModule M) = false →
           getModuleQueries s' = Name M :: getModuleQueries s).
Proof.
  intros HM Ht H. destruct (getInt (adapterModule M)) eqn:Hi.
  - rewrite (getAdapterModule_rec_resolved _ _ _ _ HM Ht Hi) in H.
    injection H as <- <-. exists M. repeat split; try done.
    destruct (adapterModule M); simpl in *; congruence.
  - destruct (getAdapterModule_rec_resolve _ _ _ _ _ _ HM Ht Hi H)
      as (s1 & Hm & Hw & Hc & Hq & ->).
    eexists. rewrite (set_adapterModule_Modules _ _ _ M) by (by rewrite Hm).
    rewrite list_lookup_insert_eq by (rewrite Hm; by eapply lookup_lt_Some).
    repeat split; simpl; try done. congruence.
Qed.

(** The depth of the recursion: at a wrapper of a top-level module the
    fuel beyond one is not used ... *)
Lemma getAdapterModule_rec_top_fuel fuel this s M :
  Modules s !! this = Some M → isTopLevel M = true →
  getAdapterModule_rec C (S fuel) this s = getAdapterModule_rec C 1 this s.
Proof. intros HM Ht. adapter_step HM. by rewrite Ht. Qed.

(** ... and in a well-formed state the wrapper cached for a top-level
    module wraps that module, so two levels are enough everywhere. *)
Lemma getAdapterModule_fuel fuel this s :
  wf s →
  getAdapterModule_rec C (S (S fuel)) this s = getAdapterModule C this s.
Proof.
  intros W. unfold getAdapterModule.
  destruct (Modules s !! this) as [M|] eqn:HM;
    [|cbn [getAdapterModule_rec]; unfold deref; by rewrite HM].
  destruct (isTopLevel M) eqn:Ht.
  - rewrite (getAdapterModule_rec_top_fuel (S fuel) _ _ _ HM Ht).
    by rewrite (getAdapterModule_rec_top_fuel 1 _ _ _ HM Ht).
  - adapter_step HM. rewrite Ht. simpl negb. cbv iota.
    destruct (getWrapperModule _ _ s) as [wrapper s1] eqn:Hw.
    pose proof (wf_grows _ _ W (getWrapperModule_grows _ _ _ _ _ Hw)) as W1.
    destruct (wf_cached _ W1 _ _ (getWrapperModule_cached _ _ _ _ _ Hw))
      as (Mw & HMw & Hcm).
    apply getAdapterModule_rec_top_fuel with Mw; [done|].
    unfold isTopLevel. by rewrite Hcm, isSubModule_getTopLevelModule.
Qed.

Lemma getAdapterModule_not_OutOfFuel this s :
  wf s → getAdapterModule C this s ≠ OutOfFuel.
Proof.
  intros W. unfold getAdapterModule.
  destruct (Modules s !! this) as [M|] eqn:HM;
    [|cbn [getAdapterModule_rec]; unfold deref; by rewrite HM].
  assert (∀ this s M, Modules s !! this = Some M → isTopLevel M = true →
            getAdapterModule_rec C 1 this s ≠ OutOfFuel) as Htop.
  { clear. intros this s M HM Ht. adapter_step HM. rewrite Ht. simpl negb. cbv iota.
    destruct (negb _); [|done].
    destruct (Ctx_getModule _ _ _) as [a|]; [|done].
    destruct (isa_ClangModule a); cbn [mbind result_mbind result_bind].
    - unfold deref. rewrite (set_adapterModule_Modules _ _ _ M) by done.
      rewrite list_lookup_insert_eq by (by eapply lookup_lt_Some). done.
    - case_bool_decide; cbn [mbind result_mbind result_bind]; [|done].
      unfold deref. rewrite (set_adapterModule_Modules _ _ _ M) by done.
      rewrite list_lookup_insert_eq by (by eapply lookup_lt_Some). done. }
  destruct (isTopLevel M) eqn:Ht.
  - rewrite (getAdapterModule_rec_top_fuel _ _ _ _ HM Ht). by eapply Htop.
  - adapter_step HM. rewrite Ht. simpl negb. cbv iota.
    destruct (getWrapperModule _ _ s) as [wrapper s1] eqn:Hw.
    pose proof (wf_grows _ _ W (getWrapperModule_grows _ _ _ _ _ Hw)) as W1.
    destruct (wf_cached _ W1 _ _ (getWrapperModule_cached _ _ _ _ _ Hw))
      as (Mw & HMw & Hcm).
    eapply Htop; [done|].
    unfold isTopLevel. by rewrite Hcm, isSubModule_getTopLevelModule.
Qed.

(** Asking again gives the same answer and changes nothing. *)
Lemma getAdapterModule_rec_again fuel this s r s' :
  getAdapterModule_rec C fuel this s = Ok (r, s') →
  getAdapterModule_rec C fuel this s' = Ok (r, s').
Proof.
  revert this s. induction fuel as [|fuel IH]; intros this s H; [done|].
  destruct (Modules s !! this) as [M|] eqn:HM;
    [|revert H; cbn [getAdapterModule_rec]; unfold deref; by rewrite HM].
  destruct (isTopLevel M) eqn:Ht.
  - destruct (getAdapterModule_rec_top _ _ _ _ _ _ HM Ht H)
      as (M' & HM' & (_&_&_&Hcm&_) & Ha & _).
    rewrite (getAdapterModule_rec_resolved _ _ _ M' HM'); rewrite ?Ha; try done.
    unfold isTopLevel in *. by rewrite Hcm.
  - revert H. adapter_step HM. rewrite Ht. simpl negb. cbv iota.
    destruct (getWrapperModule _ _ s) as [wrapper s1] eqn:Hw. intros H.
    pose proof (getWrapperModule_grows _ _ _ _ _ Hw) as G1.
    pose proof (getAdapterModule_rec_quiet _ _ _ _ _ H) as [G2 _].
    pose proof (grows_trans _ _ _ G1 G2) as G.
    destruct (grows_Modules _ _ G _ _ HM) as (M' & HM' & (_&_&Hcomp&Hcm&_)).
    assert (cached s' (getTopLevelModule (clangModule M)) = Some wrapper) as Hc.
    { apply (grows_cached_keep s1); [exact G2|]. by eapply getWrapperModule_cached. }
    adapter_step HM'. unfold isTopLevel in *. rewrite Hcm, Ht. simpl negb. cbv iota.
    rewrite Hcomp, (getWrapperModule_hit _ _ _ _ Hc). by eapply IH.
Qed.

Lemma reexport_one_quiet comp tla acc exportMod exports' s' :
  reexport_one C comp tla acc exportMod = Ok (exports', s') →
  ∃ exports s, acc = Ok (exports, s) ∧ quiet s s'.
Proof.
  unfold reexport_one. destruct acc as [[exports s]| | |]; try done.
  cbn [mbind result_mbind result_bind].
  destruct (getWrapperModule exportMod (Some comp) s) as [exportWrapper s1] eqn:Hw.
  destruct (getAdapterModule C exportWrapper s1) as [[actualExport s2]| | |] eqn:Ha;
    try done.
  cbn [mbind result_mbind result_bind]. intros [= _ <-].
  exists exports, s. split; [done|].
  eapply quiet_trans; [by eapply getWrapperModule_quiet|].
  by eapply getAdapterModule_rec_quiet.
Qed.

Lemma reexports_quiet comp tla exported acc exports' s' :
  foldl (reexport_one C comp tla) acc exported = Ok (exports', s') →
  ∃ exports s, acc = Ok (exports, s) ∧ quiet s s'.
Proof.
  revert acc. induction exported as [|m l IH]; intros acc; simpl.
  - intros ->. eexists _, _. split; [done | apply quiet_refl].
  - intros H. destruct (IH _ H) as (ex1 & s1 & H1 & Q1).
    destruct (reexport_one_quiet _ _ _ _ _ _ H1) as (ex & s & -> & Q).
    exists ex, s. split; [done | by eapply quiet_trans].
Qed.

Lemma getReexportedModules_quiet module exports s exports' s' :
  getReexportedModules C module exports s = Ok (exports', s') → quiet s s'.
Proof.
  unfold getReexportedModules.
  destruct (deref module s) as [self| | |]; try done.
  cbn [mbind result_mbind result_bind].
  destruct (getAdapterModule C module s) as [[tla s1]| | |] eqn:Ha; try done.
  cbn [mbind result_mbind result_bind]. intros H.
  destruct (reexports_quiet _ _ _ _ _ _ H) as (ex & s2 & [= <- <-] & Q).
  eapply quiet_trans; [by eapply getAdapterModule_rec_quiet | done].
Qed.

Lemma grows_core s s1 :
  Modules s1 = Modules s → ModuleWrappers s1 = ModuleWrappers s →
  Generation s ≤ Generation s1 → grows s s1.
Proof.
  intros HM HW Hg. split.
  - intros w M ?. exists M. rewrite HM. split; [done | apply same_wrapper_refl].
  - intros w M' Hle Hw. rewrite HM in Hw. apply lookup_lt_Some in Hw. lia.
  - intros m e ?. exists e. rewrite HW. by repeat split.
  - intros m w Hw. left. unfold cached in *. by rewrite <- HW.
  - done.
Qed.

(** Setting the flag of a cache entry. *)
Lemma update_setInt_grows m s : grows s (update_cacheEntry m (setInt true) s).
Proof.
  split; unfold_state; try done.
  - intros w M ?. exists M. split; [done | apply same_wrapper_refl].
  - intros w M' Hle Hw. apply lookup_lt_Some in Hw. lia.
  - intros m' e He. destruct (ModuleWrappers s !! m) as [e0|] eqn:He0.
    + destruct (decide (m = m')) as [<-|Hne].
      * rewrite lookup_insert_eq. eexists. split; [done|].
        assert (e0 = e) as -> by congruence. by split.
      * rewrite lookup_insert_ne by done. exists e. by repeat split.
    + exists e. by repeat split.
  - intros m' w. unfold cached. unfold_state.
    destruct (ModuleWrappers s !! m) as [e0|] eqn:He0; [|by left].
    destruct (decide (m = m')) as [<-|Hne].
    + rewrite lookup_insert_eq, He0. simpl. by left.
    + rewrite lookup_insert_ne by done. by left.
Qed.

(** The traversal forced by [loadModule] is recorded and leaves the
    generation alone. *)
Lemma forAllVisibleModules_spec this path s s' :
  forAllVisibleModules C this path s = Ok s' →
  grows s s' ∧ Generation s' = Generation s
  ∧ CurrentGeneration s' = CurrentGeneration s
  ∧ ImportCounter s' = ImportCounter s
  ∧ firstClangModule s' = firstClangModule s
  ∧ forcedModules s' = this :: forcedModules s.
Proof.
  unfold forAllVisibleModules.
  destruct (getReexportedModules _ _ _ _) as [[ex s1]| | |] eqn:H; try done.
  cbn [mbind result_mbind result_bind]. intros [= <-].
  destruct (getReexportedModules_quiet _ _ _ _ _ H) as [G (?&?&?&?&?)].
  split; [|by repeat split].
  eapply grows_trans; [|exact G]. by apply grows_core.
Qed.

(** ** [loadModule], case by case *)

Lemma loadModule_failure importLoc path s :
  Instance_loadModule C (ImportCounter s) (map fst path) = None →
  loadModule C importLoc path s = Ok (None, set_ImportCounter S s).
Proof. unfold loadModule. by intros ->. Qed.

Lemma cached_set_ImportCounter f s m : cached (set_ImportCounter f s) m = cached s m.
Proof. done. Qed.

Lemma ModuleWrappers_at_hit m (W : gmap clang_Module (PointerIntPair nat)) e :
  W !! m = Some e → ModuleWrappers_at m W = (e, W).
Proof. unfold ModuleWrappers_at. by intros ->. Qed.

Lemma ModuleWrappers_at_miss m (W : gmap clang_Module (PointerIntPair nat)) :
  W !! m = None →
  ModuleWrappers_at m W
  = (mkPointerIntPair None false, <[m := mkPointerIntPair None false]> W).
Proof. unfold ModuleWrappers_at. by intros ->. Qed.

Lemma Implementation_ext (s1 s2 : Implementation) :
  Modules s1 = Modules s2 → Components s1 = Components s2 →
  CurrentGeneration s1 = CurrentGeneration s2 →
  LoadedModules s1 = LoadedModules s2 → ModuleWrappers s1 = ModuleWrappers s2 →
  Generation s1 = Generation s2 → ImportCounter s1 = ImportCounter s2 →
  firstClangModule s1 = firstClangModule s2 →
  getModuleQueries s1 = getModuleQueries s2 → forcedModules s1 = forcedModules s2 →
  s1 = s2.
Proof. destruct s1, s2; simpl; congruence. Qed.

(** Reading a field of a state built by the setters. *)
Ltac state_fields :=
  cbn [update_cacheEntry new_ClangModule new_Component wrapped
        set_Modules set_Components set_CurrentGeneration set_LoadedModules
        set_ModuleWrappers set_Generation set_ImportCounter
        set_firstClangModule set_getModuleQueries set_forcedModules
        Modules Components CurrentGeneration LoadedModules ModuleWrappers
        Generation ImportCounter firstClangModule getModuleQueries forcedModules
        getPointer getInt setPointer setInt].

Lemma loadModule_hit importLoc path s m w :
  Instance_loadModule C (ImportCounter s) (map fst path) = Some m →
  cached s m = Some w →
  loadModule C importLoc path s
  = Ok (Some w, update_cacheEntry m (setInt true) (set_ImportCounter S s)).
Proof.
  unfold loadModule. intros -> Hc. unfold cached in Hc.
  destruct (ModuleWrappers s !! m) as [e|] eqn:He; [|done]. simpl in Hc.
  change (ModuleWrappers (set_ImportCounter S s)) with (ModuleWrappers s).
  rewrite (ModuleWrappers_at_hit _ _ _ He). cbv beta iota zeta. rewrite Hc.
  destruct (getInt e) eqn:Hi; cbn [negb]; [|reflexivity].
  do 2 f_equal. apply Implementation_ext; state_fields; try reflexivity.
  rewrite He. symmetry. apply insert_id. rewrite He. f_equal.
  destruct e; unfold setInt; simpl in *; congruence.
Qed.

Lemma loadModule_miss importLoc path s m :
  Instance_loadModule C (ImportCounter s) (map fst path) = Some m →
  cached s m = None →
  loadModule C importLoc path s
  = (s' ← forAllVisibleModules C (length (Modules s)) path (just_loaded m s);
     Ok (Some (length (Modules s)), bumpGeneration s')).
Proof.
  unfold loadModule. intros -> Hc. unfold cached in Hc.
  change (ModuleWrappers (set_ImportCounter S s)) with (ModuleWrappers s).
  assert (∀ s0, s0 = just_loaded m s →
    (s1 ← forAllVisibleModules C (length (Modules s)) path s0;
     Ok (Some (length (Modules s)), set_CurrentGeneration S (set_Generation S s1)))
    = (s' ← forAllVisibleModules C (length (Modules s)) path (just_loaded m s);
       Ok (Some (length (Modules s)), bumpGeneration s'))) as Hgo
    by (by intros ? ->).
  destruct (ModuleWrappers s !! m) as [e|] eqn:He; simpl in Hc.
  - rewrite (ModuleWrappers_at_hit _ _ _ He). cbv beta iota zeta. rewrite Hc.
    unfold new_Component, new_ClangModule. cbv beta iota zeta.
    apply Hgo. unfold just_loaded, remember_first.
    apply Implementation_ext; state_fields; rewrite ?He; try reflexivity;
      destruct (firstClangModule s) eqn:Hf; state_fields; rewrite ?He;
      rewrite ?lookup_insert_eq, ?insert_insert_eq; destruct e; reflexivity.
  - rewrite (ModuleWrappers_at_miss _ _ He). cbv beta iota zeta.
    unfold new_Component, new_ClangModule. cbv beta iota zeta.
    apply Hgo. unfold just_loaded, remember_first.
    apply Implementation_ext; state_fields; rewrite ?He; try reflexivity;
      destruct (firstClangModule s) eqn:Hf; state_fields; rewrite ?He;
      rewrite ?lookup_insert_eq, ?insert_insert_eq; reflexivity.
Qed.

Lemma just_loaded_grows m s : cached s m = None → grows s (just_loaded m s).
Proof.
  intros Hc. unfold just_loaded.
  eapply grows_trans; [|apply update_setInt_grows].
  eapply grows_trans; [apply (grows_core s (set_ImportCounter S s)); done|].
  eapply grows_trans; [by apply wrapped_grows|].
  unfold remember_first. destruct (firstClangModule _); [apply grows_refl|].
  by apply grows_core.
Qed.

Lemma just_loaded_counters m s :
  Generation (just_loaded m s) = Generation s
  ∧ CurrentGeneration (just_loaded m s) = CurrentGeneration s
  ∧ forcedModules (just_loaded m s) = forcedModules s.
Proof.
  unfold just_loaded, remember_first, wrapped. unfold_state.
  by destruct (firstClangModule s).
Qed.

Lemma loadModule_spec importLoc path s r s' :
  loadModule C importLoc path s = Ok (r, s') →
  grows s s'
  ∧ Generation s' = Generation s + (if loads_new_module C path s then 1 else 0)
  ∧ CurrentGeneration s'
    = CurrentGeneration s + (if loads_new_module C path s then 1 else 0)
  ∧ forcedModules s'
    = (if loads_new_module C path s then [length (Modules s)] else [])
      ++ forcedModules s.
Proof.
  unfold loads_new_module.
  destruct (Instance_loadModule C (ImportCounter s) (map fst path)) as [m|] eqn:Hl.
  - destruct (cached s m) as [w|] eqn:Hc.
    + rewrite (loadModule_hit _ _ _ _ _ Hl Hc). intros [= <- <-].
      rewrite bool_decide_eq_false_2 by done.
      split; [|unfold_state; repeat split; lia].
      eapply grows_trans; [|apply update_setInt_grows]. by apply grows_core.
    + rewrite (loadModule_miss _ _ _ _ Hl Hc).
      destruct (forAllVisibleModules _ _ _ _) as [s1| | |] eqn:Hf; try done.
      cbn [mbind result_mbind result_bind]. intros [= <- <-].
      rewrite bool_decide_eq_true_2 by done.
      destruct (forAllVisibleModules_spec _ _ _ _ Hf) as (G & Hg & Hcg & _ & _ & Hfo).
      split.
      * eapply grows_trans; [by apply just_loaded_grows|].
        eapply grows_trans; [exact G|]. apply grows_core; unfold_state; lia || done.
      * destruct (just_loaded_counters m s) as (Hg0 & Hcg0 & Hfo0).
        unfold bumpGeneration. unfold_state. rewrite Hg, Hcg, Hfo, Hg0, Hcg0, Hfo0.
        repeat split; lia.
  - rewrite (loadModule_failure _ _ _ Hl). intros [= <- <-].
    split; [by apply grows_core|]. unfold_state. repeat split; lia.
Qed.

(** A call other than [loadModule] leaves the counters alone. *)
Lemma exec_quiet c s s' :
  is_loadModule c = false → exec C c s = Ok s' → quiet s s'.
Proof.
  destruct c as [loc path|m comp|owning|this|module]; simpl; try done; intros _.
  - destruct (getWrapperModule m comp s) as [w s1] eqn:Hw. simpl. intros [= <-].
    by eapply getWrapperModule_quiet.
  - destruct owning as [M|]; simpl; [|intros [= <-]; apply quiet_refl].
    destruct (getWrapperModule _ None s) as [w s1] eqn:Hw. simpl. intros [= <-].
    by eapply getWrapperModule_quiet.
  - destruct (getAdapterModule C this s) as [[r s1]| | |] eqn:Ha; try done.
    intros [= <-]. by eapply getAdapterModule_rec_quiet.
  - destruct (getReexportedModules C module [] s) as [[r s1]| | |] eqn:Ha; try done.
    intros [= <-]. by eapply getReexportedModules_quiet.
Qed.

Lemma exec_grows c s s' : exec C c s = Ok s' → grows s s'.
Proof.
  destruct (is_loadModule c) eqn:Hc; [|intros H; by apply (exec_quiet c)].
  destruct c as [loc path| | | |]; try done. simpl.
  destruct (loadModule C loc path s) as [[r s1]| | |] eqn:Hl; try done.
  intros [= <-]. by apply (loadModule_spec _ _ _ _ _ Hl).
Qed.

Lemma run_cons c cs s s' :
  run C (c :: cs) s = Ok s' ↔ ∃ s1, exec C c s = Ok s1 ∧ run C cs s1 = Ok s'.
Proof.
  simpl. destruct (exec C c s) as [s1| | |]; cbn [mbind result_mbind result_bind];
    split; try done; try (by intros (? & ? & ?)).
  - intros H. by exists s1.
  - by intros (s2 & [= ->] & H).
Qed.

Lemma run_grows cs s s' : run C cs s = Ok s' → grows s s'.
Proof.
  revert s. induction cs as [|c cs IH]; intros s.
  - intros [= <-]. apply grows_refl.
  - intros (s1 & He & Hr)%run_cons.
    eapply grows_trans; [by eapply exec_grows | by apply IH].
Qed.

Lemma run_wf cs s s' : wf s → run C cs s = Ok s' → wf s'.
Proof. intros W H. eapply wf_grows; [done | by eapply run_grows]. Qed.

Lemma exec_Generation c s s' :
  exec C c s = Ok s' →
  Generation s' = Generation s + (if call_loads_new C c s then 1 else 0)
  ∧ CurrentGeneration s'
    = CurrentGeneration s + (if call_loads_new C c s then 1 else 0).
Proof.
  destruct (is_loadModule c) eqn:Hc.
  - destruct c as [loc path| | | |]; try done. simpl.
    destruct (loadModule C loc path s) as [[r s1]| | |] eqn:Hl; try done.
    intros [= <-]. destruct (loadModule_spec _ _ _ _ _ Hl) as (_ & ? & ? & _). done.
  - intros H. destruct (exec_quiet _ _ _ Hc H) as [_ (Hg & Hcg & _)].
    destruct c; try done; simpl; lia.
Qed.

(** ** The flag and the forced traversals *)

Lemma loadModule_new_lt importLoc path s r s' :
  loadModule C importLoc path s = Ok (r, s') →
  loads_new_module C path s = true →
  length (Modules s) < length (Modules s').
Proof.
  unfold loads_new_module. intros H.
  destruct (Instance_loadModule C (ImportCounter s) (map fst path)) as [m|] eqn:Hl;
    [|done].
  intros Hc%bool_decide_eq_true. rewrite (loadModule_miss _ _ _ _ Hl Hc) in H.
  destruct (forAllVisibleModules _ _ _ _) as [s1| | |] eqn:Hf; try done.
  injection H as _ <-.
  destruct (forAllVisibleModules_spec _ _ _ _ Hf) as (G%grows_length & _).
  unfold bumpGeneration, set_CurrentGeneration, set_Generation.
  cbn [Modules]. revert G. unfold just_loaded, remember_first, wrapped.
  destruct (firstClangModule _); state_fields; rewrite length_app; simpl; lia.
Qed.

(** The flag of a cache entry is never cleared. *)
Lemma adaptersForced_monotonic cs s s' m e :
  run C cs s = Ok s' →
  ModuleWrappers s !! m = Some e → getInt e = true →
  ∃ e', ModuleWrappers s' !! m = Some e' ∧ getInt e' = true.
Proof.
  intros Hr He Hi.
  destruct (grows_entry _ _ (run_grows _ _ _ Hr) _ _ He) as (e' & He' & [_ Hk]).
  exists e'. auto.
Qed.

Lemma exec_forced_once c s s' : exec C c s = Ok s' → forced_once s → forced_once s'.
Proof.
  intros He [Hnd Hlt]. pose proof (grows_length _ _ (exec_grows _ _ _ He)) as Hlen.
  destruct (is_loadModule c) eqn:Hc.
  - destruct c as [loc path| | | |]; try done. simpl in He.
    destruct (loadModule C loc path s) as [[r s1]| | |] eqn:Hl; try done.
    injection He as ->.
    destruct (loadModule_spec _ _ _ _ _ Hl) as (_ & _ & _ & Hf).
    unfold forced_once. rewrite Hf.
    destruct (loads_new_module C path s) eqn:Hnew; simpl.
    + split.
      * apply NoDup_cons. split; [|done]. intros Hin%Hlt.
        by apply Nat.lt_irrefl in Hin.
      * intros w [->|Hin%Hlt]%elem_of_cons; [|lia].
        by apply (loadModule_new_lt _ _ _ _ _ Hl).
    + split; [done|]. intros w Hin%Hlt. lia.
  - destruct (exec_quiet _ _ _ Hc He) as [_ (_&_&_&_&Hf)].
    unfold forced_once. rewrite Hf. split; [done|]. intros w Hin%Hlt. lia.
Qed.

(** The traversal is forced at most once per wrapper. *)
Lemma run_forced_once cs s s' : run C cs s = Ok s' → forced_once s → forced_once s'.
Proof.
  revert s. induction cs as [|c cs IH]; intros s.
  - by intros [= <-].
  - intros (s1 & He & Hr)%run_cons Hf. eapply IH; [done|]. by eapply exec_forced_once.
Qed.

(** ** The fuel is enough *)

Lemma getAdapterModule_within_fuel this s :
  wf s → within_fuel snd (getAdapterModule C this s).
Proof.
  intros W. pose proof (getAdapterModule_not_OutOfFuel this s W) as Hf.
  destruct (getAdapterModule C this s) as [[r s']| | |] eqn:H; simpl; try done.
  eapply wf_grows; [done|]. by eapply getAdapterModule_rec_quiet.
Qed.

Lemma reexport_one_within_fuel comp tla acc exportMod :
  within_fuel snd acc → within_fuel snd (reexport_one C comp tla acc exportMod).
Proof.
  unfold reexport_one. destruct acc as [[exports s]| | |]; simpl; try done.
  intros W. destruct (getWrapperModule exportMod (Some comp) s) as [w s1] eqn:Hw.
  pose proof (wf_grows _ _ W (getWrapperModule_grows _ _ _ _ _ Hw)) as W1.
  pose proof (getAdapterModule_within_fuel w s1 W1) as Ha.
  by destruct (getAdapterModule C w s1) as [[a s2]| | |].
Qed.

Lemma reexports_within_fuel comp tla exported acc :
  within_fuel snd acc →
  within_fuel snd (foldl (reexport_one C comp tla) acc exported).
Proof.
  revert acc. induction exported as [|m l IH]; intros acc W; simpl; [done|].
  by apply IH, reexport_one_within_fuel.
Qed.

Lemma getReexportedModules_within_fuel module exports s :
  wf s → within_fuel snd (getReexportedModules C module exports s).
Proof.
  intros W. unfold getReexportedModules.
  destruct (deref module s) as [self| | |] eqn:Hd; simpl; try done;
    [|unfold deref in Hd; by destruct (Modules s !! module)].
  pose proof (getAdapterModule_within_fuel module s W) as Ha.
  destruct (getAdapterModule C module s) as [[tla s1]| | |]; simpl; try done.
  by apply reexports_within_fuel.
Qed.

Lemma forAllVisibleModules_within_fuel this path s :
  wf s → within_fuel id (forAllVisibleModules C this path s).
Proof.
  intros W. unfold forAllVisibleModules.
  assert (wf (set_forcedModules (cons this) s)) as W1.
  { eapply wf_grows; [done|]. by apply grows_core. }
  pose proof (getReexportedModules_within_fuel this [] _ W1) as Hr.
  by destruct (getReexportedModules C this [] _) as [[ex s1]| | |].
Qed.

Lemma loadModule_within_fuel importLoc path s :
  wf s → within_fuel snd (loadModule C importLoc path s).
Proof.
  intros W.
  destruct (loadModule C importLoc path s) as [[r s']| | |] eqn:H; simpl; try done.
  - eapply wf_grows; [done|]. by apply (loadModule_spec _ _ _ _ _ H).
  - destruct (Instance_loadModule C (ImportCounter s) (map fst path)) as [m|] eqn:Hl;
      [|by rewrite (loadModule_failure _ _ _ Hl) in H].
    destruct (cached s m) as [w|] eqn:Hc;
      [by rewrite (loadModule_hit _ _ _ _ _ Hl Hc) in H|].
    rewrite (loadModule_miss _ _ _ _ Hl Hc) in H.
    pose proof (forAllVisibleModules_within_fuel (length (Modules s)) path
                  (just_loaded m s)
                  (wf_grows _ _ W (just_loaded_grows _ _ Hc))) as Hf.
    by destruct (forAllVisibleModules C _ _ _).
Qed.

Lemma exec_within_fuel c s : wf s → within_fuel id (exec C c s).
Proof.
  intros W. destruct c as [loc path|m comp|owning|this|module]; simpl.
  - pose proof (loadModule_within_fuel loc path s W) as H.
    by destruct (loadModule C loc path s) as [[r s']| | |].
  - destruct (getWrapperModule m comp s) as [w s'] eqn:Hw. simpl.
    eapply wf_grows; [done | by eapply getWrapperModule_grows].
  - destruct owning as [M|]; simpl; [|done].
    destruct (getWrapperModule _ None s) as [w s'] eqn:Hw. simpl.
    eapply wf_grows; [done | by eapply getWrapperModule_grows].
  - pose proof (getAdapterModule_within_fuel this s W) as H.
    by destruct (getAdapterModule C this s) as [[r s']| | |].
  - pose proof (getReexportedModules_within_fuel module [] s W) as H.
    by destruct (getReexportedModules C module [] s) as [[r s']| | |].
Qed.

(** No run of calls from a well-formed state, a fresh importer for one,
    stops for lack of fuel. *)
Lemma run_within_fuel cs s : wf s → within_fuel id (run C cs s).
Proof.
  revert s. induction cs as [|c cs IH]; intros s W; simpl; [done|].
  pose proof (exec_within_fuel c s W) as H.
  destruct (exec C c s) as [s'| | |]; simpl; try done. by apply IH.
Qed.

Lemma run_fresh_not_OutOfFuel cs : run C cs fresh_Implementation ≠ OutOfFuel.
Proof.
  pose proof (run_within_fuel cs _ wf_fresh) as H. by destruct (run C cs _).
Qed.

(** ** The module side: identity, generation, failure, memoization, names *)

(** C1, wrapper identity. Once [getWrapperModule] has returned a wrapper
    for a foreign module, every later call for that module, after any
    calls into the importer in between and whatever component it is given,
    returns the same pointer and leaves the state as it is: a hit builds
    no wrapper. [loadModule] too returns that pointer when the frontend
    loads the module, and allocates nothing. *)
Theorem getWrapperModule_identity m c c' cs s w s1 s2 :
  getWrapperModule m c s = (w, s1) →
  run C cs s1 = Ok s2 →
  getWrapperModule m c' s2 = (w, s2)
  ∧ ∀ importLoc path,
      Instance_loadModule C (ImportCounter s2) (map fst path) = Some m →
      ∃ s3, loadModule C importLoc path s2 = Ok (Some w, s3)
            ∧ Modules s3 = Modules s2.
Proof.
  intros Hw Hr.
  assert (cached s2 m = Some w) as Hc.
  { apply (grows_cached_keep s1); [by eapply run_grows|].
    by eapply getWrapperModule_cached. }
  split; [by apply getWrapperModule_hit|].
  intros importLoc path Hl. eexists. split; [by apply loadModule_hit|]. done.
Qed.

(** C2 as amended, generation exactly once per loaded module. Along any
    run of calls both generation counters grow by the number of calls of
    [loadModule] that loaded a module that had no wrapper
    ([modules_loaded]): such a call adds exactly one, and a hit or a
    failed load of [loadModule], and every call of [getWrapperModule],
    [getClangModuleForDecl], [getAdapterModule] and [getReexportedModules],
    add nothing, also when they create wrappers. *)
Theorem Generation_counts_loaded_modules cs s s' :
  run C cs s = Ok s' →
  Generation s' = Generation s + modules_loaded C cs s
  ∧ CurrentGeneration s' = CurrentGeneration s + modules_loaded C cs s.
Proof.
  revert s. induction cs as [|c cs IH]; intros s.
  - intros [= <-]. simpl. lia.
  - intros (s1 & He & Hr)%run_cons. simpl. rewrite He.
    destruct (exec_Generation _ _ _ He) as [Hg Hcg].
    destruct (IH _ Hr) as [Hg' Hcg']. lia.
Qed.

(** C3, load-failure atomicity. When the frontend does not load the
    module, [loadModule] returns null and the only thing that changed is
    the counter of import locations: the cache, the arena of wrappers and
    the generation counters are as before. *)
Theorem loadModule_failure_atomic importLoc path s :
  Instance_loadModule C (ImportCounter s) (map fst path) = None →
  ∃ s', loadModule C importLoc path s = Ok (None, s')
        ∧ s' = set_ImportCounter S s
        ∧ ModuleWrappers s' = ModuleWrappers s
        ∧ Modules s' = Modules s
        ∧ Generation s' = Generation s
        ∧ CurrentGeneration s' = CurrentGeneration s.
Proof.
  intros Hl. eexists. split; [by apply loadModule_failure|]. by repeat split.
Qed.

Lemma getAdapterModule_rec_sub fuel this s M :
  Modules s !! this = Some M → isTopLevel M = false →
  getAdapterModule_rec C (S fuel) this s
  = (let '(w, s1) :=
       getWrapperModule (getTopLevelModule (clangModule M)) (Some (Comp M)) s in
     getAdapterModule_rec C fuel w s1).
Proof. intros HM Ht. adapter_step HM. by rewrite Ht. Qed.

(** C6, adapter memoization. After [getAdapterModule] has returned for a
    wrapper, every later call for it, after any calls into the importer in
    between, returns the same module (or the same null) and leaves the
    state as it is, the log of queries to the host module table included.
    The first call itself: at a wrapper of a top-level module it asks the
    table once if the binding is unresolved and not at all if it is
    resolved; at a wrapper of a submodule it is the call at the wrapper of
    the top-level module. *)
Theorem getAdapterModule_memoized this M s r s' cs s'' :
  Modules s !! this = Some M →
  getAdapterModule C this s = Ok (r, s') →
  run C cs s' = Ok s'' →
  getAdapterModule C this s'' = Ok (r, s'')
  ∧ (if isTopLevel M then
       if getInt (adapterModule M)
       then r = getPointer (adapterModule M) ∧ s' = s
       else getModuleQueries s' = Name M :: getModuleQueries s
     else
       let '(w, s1) :=
         getWrapperModule (getTopLevelModule (clangModule M)) (Some (Comp M)) s in
       getAdapterModule C w s1 = Ok (r, s')).
Proof.
  intros HM H Hr. unfold getAdapterModule in *.
  pose proof (run_grows _ _ _ Hr) as G.
  assert (∀ w s0 Mw, Modules s0 !! w = Some Mw → isTopLevel Mw = true →
            getAdapterModule_rec C 1 w s0 = Ok (r, s') →
            ∃ Mw'', Modules s'' !! w = Some Mw'' ∧ isTopLevel Mw'' = true
                    ∧ adapterModule Mw'' = mkPointerIntPair r true) as Hkeep.
  { intros w s0 Mw HMw Htw Hrec.
    destruct (getAdapterModule_rec_top _ _ _ _ _ _ HMw Htw Hrec)
      as (Mw' & HMw' & (_&_&_&Hcm'&_) & Ha & _).
    destruct (grows_Modules _ _ G _ _ HMw') as (Mw'' & HMw'' & (_&_&_&Hcm''&Hperm)).
    exists Mw''. split; [done|]. split.
    - unfold isTopLevel in *. by rewrite Hcm'', Hcm'.
    - rewrite Hperm; [done|]. by rewrite Ha. }
  destruct (isTopLevel M) eqn:Ht.
  - rewrite (getAdapterModule_rec_top_fuel _ _ _ _ HM Ht) in H.
    destruct (Hkeep _ _ _ HM Ht H) as (M'' & HM'' & Ht'' & Ha'').
    split.
    + rewrite (getAdapterModule_rec_resolved _ _ _ _ HM'' Ht''); rewrite Ha''; done.
    + destruct (getAdapterModule_rec_top _ _ _ _ _ _ HM Ht H)
        as (M' & HM' & _ & Ha & Hres & Hunres).
      destruct (getInt (adapterModule M)) eqn:Hi; [|by apply Hunres].
      specialize (Hres eq_refl) as ->. split; [|done].
      assert (M' = M) as -> by congruence. by rewrite Ha.
  - rewrite (getAdapterModule_rec_sub _ _ _ _ HM Ht) in H.
    destruct (getWrapperModule _ _ s) as [w s1] eqn:Hw.
    destruct (Modules s1 !! w) as [Mw|] eqn:HMw;
      [|revert H; cbn [getAdapterModule_rec]; unfold deref; by rewrite HMw].
    destruct (isTopLevel Mw) eqn:Htw;
      [|rewrite (getAdapterModule_rec_sub _ _ _ _ HMw Htw) in H;
        by destruct (getWrapperModule _ _ s1)].
    split; [|by rewrite (getAdapterModule_rec_top_fuel _ _ _ _ HMw Htw)].
    destruct (Hkeep _ _ _ HMw Htw H) as (Mw'' & HMw'' & Htw'' & Ha'').
    pose proof (getWrapperModule_grows _ _ _ _ _ Hw) as G1.
    pose proof (getAdapterModule_rec_quiet _ _ _ _ _ H) as [G2 _].
    pose proof (grows_trans _ _ _ G1 (grows_trans _ _ _ G2 G)) as G'.
    destruct (grows_Modules _ _ G' _ _ HM) as (M'' & HM'' & (_&_&Hcomp&Hcm&_)).
    assert (cached s'' (getTopLevelModule (clangModule M)) = Some w) as Hc.
    { apply (grows_cached_keep s1); [by eapply grows_trans|].
      by eapply getWrapperModule_cached. }
    rewrite (getAdapterModule_rec_sub _ _ _ M'' HM'')
      by (unfold isTopLevel in *; by rewrite Hcm).
    rewrite Hcm, Hcomp, (getWrapperModule_hit _ _ _ _ Hc).
    rewrite (getAdapterModule_rec_resolved _ _ _ _ HMw'' Htw''); rewrite Ha''; done.
Qed.

Lemma String_length_append (a b : string) :
  String.length (a +:+ b) = String.length a + String.length b.
Proof. induction a as [|x a IH]; simpl; [done | by rewrite IH]. Qed.

(** C10, the naming of wrappers. Every wrapper created during a run of
    calls is named after the foreign module it wraps: its identifier is
    the module's own [Name], the last segment of its path, and its debug
    name is the full dotted name. For a submodule below a named module
    the two differ. *)
Theorem wrapper_named_after_module cs s s' w M :
  run C cs s = Ok s' →
  length (Modules s) ≤ w →
  Modules s' !! w = Some M →
  Name M = clang_Name (clangModule M)
  ∧ DebugModuleName M = getFullModuleName (clangModule M)
  ∧ match clangModule M with
    | TopLevelModule n => Name M = n ∧ DebugModuleName M = n
    | SubModule p n =>
        Name M = n
        ∧ (getFullModuleName p ≠ "" →
           DebugModuleName M = getFullModuleName p +:+ "." +:+ n
           ∧ Name M ≠ DebugModuleName M)
    end.
Proof.
  intros Hr Hle HM.
  destruct (grows_new _ _ (run_grows _ _ _ Hr) _ _ Hle HM) as [Hn Hd].
  split; [done|]. split; [done|].
  rewrite Hn, Hd. destruct (clangModule M) as [n|p n]; simpl; [done|].
  split; [done|]. intros Hp. rewrite decide_False by done. split; [done|].
  intros Heq. apply (f_equal String.length) in Heq.
  rewrite !String_length_append in Heq. simpl in Heq. lia.
Qed.

End ModuleSideProperties.

(** ** The module side at work in the small world *)

(** [Kit] wrapped, its adapter resolved, [Kit] imported, and [Kit] asked
    for again with another component: the same wrapper 0. *)
Lemma getWrapperModule_identity_witness :
  (getWrapperModule Kit None fresh_Implementation = (0, Kit_wrapped)
   ∧ run KitWorld Kit_calls Kit_wrapped = Ok Kit_later)
  ∧ getWrapperModule Kit (Some 5) Kit_later = (0, Kit_later).
Proof.
  split; [split; vm_compute; reflexivity|].
  apply (getWrapperModule_identity KitWorld Kit None (Some 5) Kit_calls
           fresh_Implementation 0 Kit_wrapped Kit_later);
    vm_compute; reflexivity.
Defined.

(** Against C2 as stated: [getWrapperModule] creates the wrapper of [Kit]
    in a fresh importer, and the generation is what it was. *)
Lemma getWrapperModule_creates_without_bump :
  cached fresh_Implementation Kit = None
  ∧ getWrapperModule Kit None fresh_Implementation = (0, Kit_wrapped)
  ∧ length (Modules Kit_wrapped) = 1 + length (Modules fresh_Implementation)
  ∧ Generation Kit_wrapped = Generation fresh_Implementation
  ∧ Generation Kit_wrapped ≠ Generation fresh_Implementation + 1.
Proof. repeat apply conj; vm_compute; (reflexivity || discriminate). Qed.

(** [Kit.UI] wrapped by [getWrapperModule], then [Kit] imported twice: one
    module loaded, the generation one higher. *)
Lemma Generation_counts_loaded_modules_witness :
  run KitWorld Kit_twice_calls fresh_Implementation = Ok Kit_twice
  ∧ modules_loaded KitWorld Kit_twice_calls fresh_Implementation = 1
  ∧ Generation Kit_twice
    = Generation fresh_Implementation
      + modules_loaded KitWorld Kit_twice_calls fresh_Implementation.
Proof.
  split; [vm_compute; reflexivity|]. split; [vm_compute; reflexivity|].
  apply (Generation_counts_loaded_modules KitWorld Kit_twice_calls
           fresh_Implementation Kit_twice).
  vm_compute; reflexivity.
Defined.

(** An import of [Nope], which the frontend does not find, after [Kit]
    was imported. *)
Lemma loadModule_failure_atomic_witness :
  Instance_loadModule KitWorld (ImportCounter Kit_loaded) (map fst [("Nope", 0)]) = None
  ∧ ∃ s', loadModule KitWorld 0 [("Nope", 0)] Kit_loaded = Ok (None, s')
          ∧ s' = set_ImportCounter S Kit_loaded
          ∧ ModuleWrappers s' = ModuleWrappers Kit_loaded
          ∧ Modules s' = Modules Kit_loaded
          ∧ Generation s' = Generation Kit_loaded
          ∧ CurrentGeneration s' = CurrentGeneration Kit_loaded.
Proof.
  split; [vm_compute; reflexivity|].
  apply (loadModule_failure_atomic KitWorld 0 [("Nope", 0)] Kit_loaded).
  vm_compute; reflexivity.
Defined.

(** The adapter of the wrapper of [Kit.UI] is the overlay of [Kit], also
    after [Kit] was imported in between. *)
Lemma getAdapterModule_memoized_witness :
  (Modules Kit_UI_wrapped !! 0
   = Some (ClangModule_new "Kit.UI" 0 Kit_UI)
   ∧ getAdapterModule KitWorld 0 Kit_UI_wrapped
     = Ok (Some (SwiftModule_ptr 7), Kit_UI_resolved)
   ∧ run KitWorld [Call_loadModule 0 [("Kit", 0)]] Kit_UI_resolved = Ok Kit_UI_later)
  ∧ getAdapterModule KitWorld 0 Kit_UI_later
    = Ok (Some (SwiftModule_ptr 7), Kit_UI_later).
Proof.
  assert (Modules Kit_UI_wrapped !! 0 = Some (ClangModule_new "Kit.UI" 0 Kit_UI))
    as H1 by (vm_compute; reflexivity).
  assert (getAdapterModule KitWorld 0 Kit_UI_wrapped
          = Ok (Some (SwiftModule_ptr 7), Kit_UI_resolved))
    as H2 by (vm_compute; reflexivity).
  assert (run KitWorld [Call_loadModule 0 [("Kit", 0)]] Kit_UI_resolved
          = Ok Kit_UI_later)
    as H3 by (vm_compute; reflexivity).
  split; [by repeat apply conj|].
  exact (proj1 (getAdapterModule_memoized KitWorld 0 _ _ _ _ _ _ H1 H2 H3)).
Defined.

(** C7 at the input where it fails. [Kit] was wrapped by
    [getWrapperModule], so its cache entry has the flag clear. [loadModule]
    then returns that wrapper and sets the flag, but the traversal of the
    imports does not run: nothing is recorded in [forcedModules] and the
    wrapper of the exported [Kit.UI] is not created. When [loadModule]
    creates the wrapper itself, the traversal runs. *)
Theorem loadModule_cached_sets_flag_without_traversal :
  (ModuleWrappers Kit_wrapped !! Kit = Some (mkPointerIntPair (Some 0) false)
   ∧ ∃ s', loadModule KitWorld 0 [("Kit", 0)] Kit_wrapped = Ok (Some 0, s')
           ∧ ModuleWrappers s' !! Kit = Some (mkPointerIntPair (Some 0) true)
           ∧ forcedModules s' = []
           ∧ Modules s' = Modules Kit_wrapped
           ∧ cached s' Kit_UI = None)
  ∧ (∃ s', loadModule KitWorld 0 [("Kit", 0)] fresh_Implementation = Ok (Some 0, s')
           ∧ ModuleWrappers s' !! Kit = Some (mkPointerIntPair (Some 0) true)
           ∧ forcedModules s' = [0]
           ∧ cached s' Kit_UI = Some 1).
Proof.
  split; [split; [vm_compute; reflexivity|]|].
  - eexists. split; [vm_compute; reflexivity|]. repeat apply conj; vm_compute; reflexivity.
  - eexists. split; [vm_compute; reflexivity|]. repeat apply conj; vm_compute; reflexivity.
Qed.

(** The wrapper of [Kit.UI] created by the import of [Kit] is named [UI],
    with debug name [Kit.UI]. *)
Lemma wrapper_named_after_module_witness :
  (run KitWorld [Call_loadModule 0 [("Kit", 0)]] fresh_Implementation = Ok Kit_loaded
   ∧ length (Modules fresh_Implementation) ≤ 1
   ∧ Modules Kit_loaded !! 1 = Some (ClangModule_new "Kit.UI" 0 Kit_UI))
  ∧ Name (ClangModule_new "Kit.UI" 0 Kit_UI) = "UI"
  ∧ DebugModuleName (ClangModule_new "Kit.UI" 0 Kit_UI) = "Kit.UI".
Proof.
  split; [repeat apply conj; vm_compute; (reflexivity || lia)|].
  destruct (wrapper_named_after_module KitWorld [Call_loadModule 0 [("Kit", 0)]]
              fresh_Implementation Kit_loaded 1 (ClangModule_new "Kit.UI" 0 Kit_UI))
    as (Hn & Hd & _); [vm_compute; reflexivity | vm_compute; lia | vm_compute; reflexivity|].
  split; [exact Hn | exact Hd].
Defined.

(** ** Names and lookup *)

Lemma substring_0_append (b s : string) :
  String.substring 0 (String.length b) (b +:+ s) = b.
Proof. induction b as [|x b IH]; simpl; [by destruct s | by rewrite IH]. Qed.

Lemma substring_skip_append (b s : string) n :
  String.substring (String.length b) n (b +:+ s) = String.substring 0 n s.
Proof. induction b as [|x b IH]; simpl; [done | by rewrite IH]. Qed.

Lemma substring_0_length (s : string) : String.substring 0 (String.length s) s = s.
Proof. induction s as [|x s IH]; simpl; [done | by rewrite IH]. Qed.

Lemma substring_split (s : string) n :
  n ≤ String.length s →
  s = String.substring 0 n s +:+ String.substring n (String.length s - n) s.
Proof.
  revert n. induction s as [|x s IH]; intros [|n] Hn; simpl in *; try lia.
  - done.
  - by rewrite substring_0_length.
  - change (String x s = String x (String.substring 0 n s +:+
      String.substring n (String.length s - n) s)).
    f_equal. apply IH. lia.
Qed.

(** [endswith] holds of the strings that are a base followed by the
    suffix, and the base is what [substr] cuts out. *)
Lemma endswith_spec (s Suffix : string) :
  endswith s Suffix = true ↔ ∃ base, s = base +:+ Suffix.
Proof.
  unfold endswith. rewrite andb_true_iff, Nat.leb_le, String.eqb_eq. split.
  - intros [Hle Hs]. exists (String.substring 0 (String.length s - String.length Suffix) s).
    set (k := String.length s - String.length Suffix).
    rewrite (substring_split s k) at 1 by lia. f_equal.
    replace (String.length s - k) with (String.length Suffix) by lia. exact Hs.
  - intros [base ->]. rewrite String_length_append. split; [lia|].
    replace (String.length base + String.length Suffix - String.length Suffix)
      with (String.length base) by lia.
    by rewrite substring_skip_append, substring_0_length.
Qed.

Lemma substr_base (base Suffix : string) :
  substr (base +:+ Suffix) 0
    (String.length (base +:+ Suffix) - String.length Suffix) = base.
Proof.
  unfold substr. rewrite String_length_append.
  replace (String.length base + String.length Suffix - String.length Suffix)
    with (String.length base) by lia.
  apply substring_0_append.
Qed.

Section NameSideProperties.
Context (F : Frontend).

Lemma importName_Some name clangName :
  importName F name = Some clangName → clangName = name.
Proof.
  unfold importName. destruct (isOperator F name); [done|].
  destruct (isSwiftReservedName name); [done|].
  case_bool_decide; [done|]. congruence.
Qed.

(** The first loop of [lookupValue] appends the accepted declarations and
    sets [FoundType] when one of them is a type. *)
Lemma foldl_accept_found lookupResult results FoundType :
  foldl (accept_found F) (results, FoundType) lookupResult
  = (results ++ accepted F (true, lookupResult),
     FoundType || existsb isa_TypeDecl (accepted F (true, lookupResult))).
Proof.
  unfold accepted, translated. simpl.
  revert results FoundType.
  induction lookupResult as [|decl l IH]; intros results FoundType; simpl.
  - by rewrite app_nil_r, orb_false_r.
  - destruct (importDecl F (getUnderlyingDecl F decl)) as [D|]; simpl; [|apply IH].
    unfold outside_stdlib in *.
    destruct (isa_ValueDecl D); simpl; [|apply IH].
    destruct (bool_decide (Some (getDeclContext D) ≠ getSwiftModule F));
      simpl; [|apply IH].
    rewrite IH, <- app_assoc, orb_assoc. done.
Qed.

(** The second loop appends the translated value declarations. *)
Lemma foldl_accept_tag lookupResult results :
  foldl (accept_tag F) results lookupResult
  = results ++ accepted_tags F (true, lookupResult).
Proof.
  unfold accepted_tags, translated. simpl. revert results.
  induction lookupResult as [|decl l IH]; intros results; simpl.
  - by rewrite app_nil_r.
  - unfold accept_tag at 2.
    destruct (importDecl F (getUnderlyingDecl F decl)) as [D|]; simpl; [|apply IH].
    destruct (isa_ValueDecl D); simpl; [|apply IH].
    by rewrite IH, <- app_assoc.
Qed.

Lemma macro_probe name clangID (results : list Decl) :
  (if hasMacroDefinition F clangID then
     match getMacroInfo F clangID with
     | Some clangMacro =>
         match importMacro F name clangMacro with
         | Some valueDecl => results ++ [valueDecl]
         | None => results
         end
     | None => results
     end
   else results) = results ++ imported_macro F name clangID.
Proof.
  unfold imported_macro. destruct (hasMacroDefinition F clangID);
    [|by rewrite app_nil_r].
  destruct (getMacroInfo F clangID) as [clangMacro|]; [|by rewrite app_nil_r].
  destruct (importMacro F name clangMacro); [done | by rewrite app_nil_r].
Qed.

Lemma lookupValue_is_steps module accessPath name lookupKind results :
  lookupValue F module accessPath name lookupKind results
  = lookupValue_steps F accessPath name results.
Proof.
  unfold lookupValue, lookupValue_steps.
  destruct (negb (length accessPath <=? 1)); [done|].
  assert (match accessPath with
          | [(front, _)] => negb (String.eqb front name)
          | _ => false
          end = negb (accessPath_refers_to accessPath name)) as ->.
  { destruct accessPath as [|[front loc] [|? ?]]; done. }
  destruct (negb (accessPath_refers_to accessPath name)); [done|].
  destruct (endswith name "Proto"); cbv zeta iota beta.
  - destruct (importName F _) as [clangName|]; [|done].
    rewrite macro_probe.
    destruct (Sema_LookupName F clangName LookupObjCProtocolName) as [[|] l];
      simpl; rewrite ?foldl_accept_found; simpl.
    + by rewrite app_assoc.
    + unfold accepted; simpl. by rewrite !app_nil_r.
  - destruct (importName F name) as [clangName|]; [|done].
    rewrite macro_probe.
    destruct (Sema_LookupName F clangName LookupOrdinaryName) as [[|] l];
      simpl; rewrite ?foldl_accept_found; simpl.
    + destruct (existsb isa_TypeDecl (accepted F (true, l))); simpl.
      * by rewrite app_assoc.
      * destruct (Sema_LookupName F clangName LookupTagName) as [[|] l'];
          simpl; rewrite ?foldl_accept_tag; simpl;
          by rewrite ?app_nil_r, ?app_assoc.
    + destruct (Sema_LookupName F clangName LookupTagName) as [[|] l'];
        simpl; rewrite ?foldl_accept_tag; simpl;
        by rewrite ?app_nil_r, ?app_assoc.
Qed.



(** C4, tag fallback exclusivity. [lookupValue] makes a lookup in tag-name
    mode exactly when it reached the lookup in ordinary-name mode (the
    name does not end in "Proto") and no declaration accepted from the
    ordinary lookup is a type; so when the ordinary lookup yields an
    accepted type, no tag lookup is made. *)
Theorem tag_fallback_exclusive module accessPath name lookupKind results results' lookups :
  lookupValue F module accessPath name lookupKind results = Ok (results', lookups) →
  (∃ n, (n, LookupTagName) ∈ lookups)
  ↔ endswith name "Proto" = false
    ∧ reaches_lookup F accessPath name name = true
    ∧ (name, LookupOrdinaryName) ∈ lookups
    ∧ existsb isa_TypeDecl (accepted F (Sema_LookupName F name LookupOrdinaryName))
      = false.
Proof.
  rewrite lookupValue_is_steps. unfold lookupValue_steps, reaches_lookup.
  destruct (negb (length accessPath <=? 1)); [done|].
  destruct (accessPath_refers_to accessPath name); simpl;
    [|intros [= <- <-]; split;
      [by intros [? ?%elem_of_nil] | by intros (? & ? & ? & ?)]].
  destruct (endswith name "Proto") eqn:Hp; simpl.
  - destruct (importName F _) as [c|]; intros [= <- <-];
      (split; [|by intros (? & ? & ? & ?)]).
    + intros [n Hn]. apply list_elem_of_singleton in Hn. congruence.
    + by intros [? ?%elem_of_nil].
  - destruct (importName F name) as [c|] eqn:Hi;
      [|intros [= <- <-]; split;
        [by intros [? ?%elem_of_nil] | by intros (? & ? & ? & ?)]].
    apply importName_Some in Hi as ->.
    destruct (existsb isa_TypeDecl _) eqn:Ht; simpl; intros [= <- <-].
    + split; [|by intros (? & ? & ? & ?)]. intros [n Hn].
      apply list_elem_of_singleton in Hn. congruence.
    + split.
      * intros _. repeat split. apply list_elem_of_here.
      * intros _. exists name. apply list_elem_of_further, list_elem_of_here.
Qed.

(** C8, protocol-suffix stripping. For a name ending in "Proto", that is
    [base +:+ "Proto"], the only lookup [lookupValue] makes is for [base]
    in protocol-name mode, and it makes it whenever it reaches the lookup.
    For any other name the first lookup is for the name as it is, in
    ordinary-name mode, and no lookup is in protocol-name mode. *)
Theorem lookupValue_protocol_suffix module accessPath name lookupKind results results' lookups :
  lookupValue F module accessPath name lookupKind results = Ok (results', lookups) →
  if endswith name "Proto" then
    ∃ base, name = base +:+ "Proto"
      ∧ lookups = if reaches_lookup F accessPath name base
                  then [(base, LookupObjCProtocolName)] else []
  else
    head lookups = (if reaches_lookup F accessPath name name
                    then Some (name, LookupOrdinaryName) else None)
    ∧ ∀ n mode, (n, mode) ∈ lookups → n = name ∧ mode ≠ LookupObjCProtocolName.
Proof.
  rewrite lookupValue_is_steps. unfold lookupValue_steps, reaches_lookup.
  destruct (negb (length accessPath <=? 1)); [done|].
  destruct (endswith name "Proto") eqn:Hp.
  - apply endswith_spec in Hp as [base ->]. exists base. split; [done|].
    change 5 with (String.length "Proto") in H. rewrite substr_base in H.
    destruct (accessPath_refers_to _ _); simpl in *; [|by injection H as <- <-].
    destruct (importName F base) as [c|] eqn:Hi; [|by injection H as <- <-].
    apply importName_Some in Hi as ->. by injection H as <- <-.
  - destruct (accessPath_refers_to _ _); simpl;
      [|intros [= <- <-]; split; [done | by intros ?? ?%elem_of_nil]].
    destruct (importName F name) as [c|] eqn:Hi;
      [|intros [= <- <-]; split; [done | by intros ?? ?%elem_of_nil]].
    apply importName_Some in Hi as ->.
    destruct (existsb isa_TypeDecl _); simpl; intros [= <- <-];
      (split; [done|]); intros n mode Hn;
      repeat (apply elem_of_cons in Hn as [[= -> ->]|Hn]; [done|]);
      by apply elem_of_nil in Hn.
Qed.

(** C9, reserved names. A host name that is an operator, or is spelled
    [true] or [false], or whose Clang identifier is a keyword, has no
    foreign name, whatever the frontend would find under that spelling;
    and [lookupValue] of such a name that does not end in "Proto" adds no
    result and makes no lookup. *)
Theorem importName_reserved name :
  isOperator F name = true ∨ name = "true" ∨ name = "false"
  ∨ getTokenID F name ≠ tok_identifier →
  importName F name = None
  ∧ (endswith name "Proto" = false →
     ∀ module accessPath lookupKind results,
       length accessPath ≤ 1 →
       lookupValue F module accessPath name lookupKind results = Ok (results, [])).
Proof.
  intros H.
  assert (importName F name = None) as Hn.
  { unfold importName, isSwiftReservedName.
    destruct (isOperator F name); [done|].
    destruct H as [H | [-> | [-> | H]]]; [done..|].
    destruct (String.eqb name "true"); [done|].
    destruct (String.eqb name "false"); [done|].
    by rewrite bool_decide_eq_true_2. }
  split; [done|]. intros Hp module accessPath lookupKind results Hlen.
  rewrite lookupValue_is_steps. unfold lookupValue_steps.
  apply Nat.leb_le in Hlen. rewrite Hlen, Hp, Hn. simpl.
  by destruct (negb _).
Qed.

End NameSideProperties.

(** ** Lookup at work in the small world *)

(** [Point] is a class and a struct tag: the ordinary lookup yields the
    class, a type, and no tag lookup is made. *)
Lemma tag_fallback_exclusive_witness :
  lookupValue PointWorld None [] "Point" UnqualifiedLookup []
  = Ok ([mkDecl 11 class_TypeDecl 1], [("Point", LookupOrdinaryName)])
  ∧ ((∃ n, (n, LookupTagName) ∈ [("Point", LookupOrdinaryName)])
     ↔ endswith "Point" "Proto" = false
       ∧ reaches_lookup PointWorld [] "Point" "Point" = true
       ∧ ("Point", LookupOrdinaryName) ∈ [("Point", LookupOrdinaryName)]
       ∧ existsb isa_TypeDecl
           (accepted PointWorld (Sema_LookupName PointWorld "Point" LookupOrdinaryName))
         = false).
Proof.
  split; [vm_compute; reflexivity|].
  apply (tag_fallback_exclusive PointWorld None [] "Point" UnqualifiedLookup []
           [mkDecl 11 class_TypeDecl 1] [("Point", LookupOrdinaryName)]).
  vm_compute; reflexivity.
Defined.

(** C5 at the input where it fails. The ordinary lookup of [Shim] finds
    nothing, the tag lookup finds a struct that the declaration importer
    maps to a type whose [DeclContext] is the standard library, and that
    type is among the results: the second loop does not make the test of
    the first. *)
Theorem tag_fallback_lets_stdlib_through :
  lookupValue PointWorld None [] "Shim" UnqualifiedLookup []
  = Ok ([mkDecl 15 class_TypeDecl 0],
        [("Shim", LookupOrdinaryName); ("Shim", LookupTagName)])
  ∧ Some (getDeclContext (mkDecl 15 class_TypeDecl 0)) = getSwiftModule PointWorld
  ∧ outside_stdlib PointWorld (mkDecl 15 class_TypeDecl 0) = false.
Proof. repeat apply conj; vm_compute; reflexivity. Qed.

(** [WidgetProto] is looked up as the protocol [Widget]. *)
Lemma lookupValue_protocol_suffix_witness :
  lookupValue PointWorld None [] "WidgetProto" UnqualifiedLookup []
  = Ok ([mkDecl 13 class_TypeDecl 1], [("Widget", LookupObjCProtocolName)])
  ∧ ∃ base, "WidgetProto" = base +:+ "Proto"
      ∧ [("Widget", LookupObjCProtocolName)]
        = if reaches_lookup PointWorld [] "WidgetProto" base
          then [(base, LookupObjCProtocolName)] else [].
Proof.
  split; [vm_compute; reflexivity|].
  apply (lookupValue_protocol_suffix PointWorld None [] "WidgetProto"
           UnqualifiedLookup [] [mkDecl 13 class_TypeDecl 1]
           [("Widget", LookupObjCProtocolName)]).
  vm_compute; reflexivity.
Defined.

(** [true] has no foreign name. *)
Lemma importName_reserved_witness :
  (isOperator PointWorld "true" = true ∨ "true" = "true" ∨ "true" = "false"
   ∨ getTokenID PointWorld "true" ≠ tok_identifier)
  ∧ importName PointWorld "true" = None.
Proof.
  assert (isOperator PointWorld "true" = true ∨ "true" = "true" ∨ "true" = "false"
          ∨ getTokenID PointWorld "true" ≠ tok_identifier) as H
    by (right; left; reflexivity).
  split; [exact H|]. exact (proj1 (importName_reserved PointWorld "true" H)).
Defined.

(** * More properties of the module side *)

Section StepsOfTheModuleSide.
Context (C : Collaborators).

#[local] Abbreviation steps := (rtc (importer_step C)).

Lemma getWrapperModule_steps m c s w s' :
  getWrapperModule m c s = (w, s') → steps s s'.
Proof.
  destruct (cached s m) as [w0|] eqn:Hc.
  - rewrite (getWrapperModule_hit _ _ _ _ Hc). by intros [= <- <-].
  - rewrite (getWrapperModule_miss _ _ _ Hc). intros [= <- <-].
    by apply rtc_once, step_wrap.
Qed.

(** The state and the result of a call that resolves a binding. *)
Lemma getAdapterModule_rec_resolve_exact fuel this s M r s' :
  Modules s !! this = Some M → isTopLevel M = true →
  getInt (adapterModule M) = false →
  getAdapterModule_rec C (S fuel) this s = Ok (r, s') →
  ∃ adapter,
    Ctx_getModule C (getModuleQueries s) (Name M) = Some adapter
    ∧ (isa_ClangModule adapter = false →
       LoadedModules s !! Name M = None
       ∨ LoadedModules s !! Name M = Some adapter
       ∨ LoadedModules s !! Name M = Some (ClangModule_ptr this))
    ∧ r = (if isa_ClangModule adapter then None else Some adapter)
    ∧ s' = resolved this M adapter s.
Proof.
  intros HM Ht Hi. adapter_step HM. rewrite Ht, Hi. simpl negb. cbv iota.
  destruct (Ctx_getModule C (getModuleQueries s) (Name M)) as [adapter|]; [|done].
  assert (∀ a s1, Modules s1 = Modules s →
    (self ← deref this (set_adapterModule this (mkPointerIntPair a true) s1);
     Ok (getPointer (adapterModule self), set_adapterModule this (mkPointerIntPair a true) s1))
    = Ok (a, set_adapterModule this (mkPointerIntPair a true) s1)) as Hret.
  { intros a s1 Hs1. unfold deref.
    rewrite (set_adapterModule_Modules _ _ _ M) by (by rewrite Hs1).
    rewrite list_lookup_insert_eq by (rewrite Hs1; by eapply lookup_lt_Some).
    reflexivity. }
  unfold resolved.
  destruct (isa_ClangModule adapter) eqn:Hisa; cbn [mbind result_mbind result_bind].
  - rewrite Hret by done. intros [= <- <-]. exists adapter. rewrite Hisa.
    by split_and!.
  - case_bool_decide as Hcond; cbn [mbind result_mbind result_bind]; [|done].
    rewrite Hret by done. intros [= <- <-]. exists adapter. rewrite Hisa.
    by split_and!.
Qed.

Lemma getAdapterModule_rec_steps fuel this s r s' :
  getAdapterModule_rec C fuel this s = Ok (r, s') → steps s s'.
Proof.
  revert this s. induction fuel as [|fuel IH]; intros this s; [done|].
  destruct (Modules s !! this) as [M|] eqn:HM;
    [|cbn [getAdapterModule_rec]; unfold deref; by rewrite HM].
  destruct (isTopLevel M) eqn:Ht.
  - destruct (getInt (adapterModule M)) eqn:Hi.
    + rewrite (getAdapterModule_rec_resolved C _ _ _ _ HM Ht Hi). by intros [= <- <-].
    + intros H.
      destruct (getAdapterModule_rec_resolve_exact _ _ _ _ _ _ HM Ht Hi H)
        as (adapter & Ha & Hcond & _ & ->).
      by apply rtc_once, (step_resolve C this M adapter).
  - rewrite (getAdapterModule_rec_sub C _ _ _ _ HM Ht).
    destruct (getWrapperModule _ _ s) as [w s1] eqn:Hw. intros H.
    etrans; [by eapply getWrapperModule_steps | by eapply IH].
Qed.

Lemma reexports_steps comp tla exported acc exports' s' :
  foldl (reexport_one C comp tla) acc exported = Ok (exports', s') →
  ∃ exports s, acc = Ok (exports, s) ∧ steps s s'.
Proof.
  revert acc. induction exported as [|m l IH]; intros acc; simpl.
  - intros ->. by eexists _, _.
  - intros (ex1 & s1 & H1 & S1)%IH. revert H1. unfold reexport_one.
    destruct acc as [[exports s]| | |]; try done.
    cbn [mbind result_mbind result_bind].
    destruct (getWrapperModule m (Some comp) s) as [w s0] eqn:Hw.
    destruct (getAdapterModule C w s0) as [[a s2]| | |] eqn:Ha; try done.
    cbn [mbind result_mbind result_bind]. intros [= _ <-].
    exists exports, s. split; [done|].
    etrans; [by eapply getWrapperModule_steps|].
    etrans; [by eapply getAdapterModule_rec_steps | done].
Qed.

Lemma getReexportedModules_steps module exports s exports' s' :
  getReexportedModules C module exports s = Ok (exports', s') → steps s s'.
Proof.
  unfold getReexportedModules.
  destruct (deref module s) as [self| | |]; try done.
  cbn [mbind result_mbind result_bind].
  destruct (getAdapterModule C module s) as [[tla s1]| | |] eqn:Ha; try done.
  cbn [mbind result_mbind result_bind].
  intros (ex & s2 & [= <- <-] & S2)%reexports_steps.
  etrans; [by eapply getAdapterModule_rec_steps | done].
Qed.

Lemma loadModule_steps importLoc path s r s' :
  loadModule C importLoc path s = Ok (r, s') → steps s s'.
Proof.
  destruct (Instance_loadModule C (ImportCounter s) (map fst path)) as [m|] eqn:Hl.
  - destruct (cached s m) as [w|] eqn:Hc.
    + rewrite (loadModule_hit C _ _ _ _ _ Hl Hc). intros [= <- <-].
      eapply rtc_l; [apply step_location|]. apply rtc_once, step_flag.
    + rewrite (loadModule_miss C _ _ _ _ Hl Hc).
      destruct (forAllVisibleModules _ _ _ _) as [s1| | |] eqn:Hf; try done.
      cbn [mbind result_mbind result_bind]. intros [= <- <-].
      eapply rtc_l; [apply step_location|].
      eapply rtc_l; [by apply (step_wrap C m None)|].
      eapply rtc_l; [apply (step_first C (length (Modules s)))|].
      eapply rtc_l; [apply (step_flag C m)|].
      eapply rtc_r; [|apply step_bump].
      revert Hf. unfold forAllVisibleModules.
      destruct (getReexportedModules _ _ _ _) as [[ex s2]| | |] eqn:Hr; try done.
      cbn [mbind result_mbind result_bind]. intros [= <-].
      eapply rtc_l; [apply (step_forced C (length (Modules s)))|].
      by eapply getReexportedModules_steps.
  - rewrite (loadModule_failure C _ _ _ Hl). intros [= <- <-].
    apply rtc_once, step_location.
Qed.

Lemma exec_steps c s s' : exec C c s = Ok s' → steps s s'.
Proof.
  destruct c as [loc path|m comp|owning|this|module]; simpl.
  - destruct (loadModule C loc path s) as [[r s1]| | |] eqn:Hl; try done.
    intros [= <-]. by eapply loadModule_steps.
  - destruct (getWrapperModule m comp s) as [w s1] eqn:Hw. intros [= <-].
    by eapply getWrapperModule_steps.
  - destruct owning as [M|]; simpl; [|by intros [= <-]].
    destruct (getWrapperModule _ None s) as [w s1] eqn:Hw. intros [= <-].
    by eapply getWrapperModule_steps.
  - destruct (getAdapterModule C this s) as [[r s1]| | |] eqn:Ha; try done.
    intros [= <-]. by eapply getAdapterModule_rec_steps.
  - destruct (getReexportedModules C module [] s) as [[r s1]| | |] eqn:Ha; try done.
    intros [= <-]. by eapply getReexportedModules_steps.
Qed.

Lemma run_steps cs s s' : run C cs s = Ok s' → steps s s'.
Proof.
  revert s. induction cs as [|c cs IH]; intros s.
  - by intros [= <-].
  - intros (s1 & He & Hr)%run_cons. etrans; [by eapply exec_steps | by apply IH].
Qed.

(** What every step keeps, every run keeps. *)
Lemma steps_keep (P : Implementation → Prop) s s' :
  (∀ s s', importer_step C s s' → P s → P s') → steps s s' → P s → P s'.
Proof. intros Hstep. induction 1; eauto. Qed.

End StepsOfTheModuleSide.

Section InvariantsOfTheModuleSide.
Context (C : Collaborators).

Lemma resolved_Modules this M adapter s :
  Modules s !! this = Some M →
  Modules (resolved this M adapter s)
  = <[this := mkClangModule (Name M) (DebugModuleName M) (Comp M) (clangModule M)
               (mkPointerIntPair
                  (if isa_ClangModule adapter then None else Some adapter) true)]>
      (Modules s).
Proof.
  intros HM. unfold resolved.
  destruct (isa_ClangModule adapter); by rewrite (set_adapterModule_Modules _ _ _ M).
Qed.

Lemma resolved_ModuleWrappers this M adapter s :
  ModuleWrappers (resolved this M adapter s) = ModuleWrappers s.
Proof. unfold resolved. by destruct (isa_ClangModule adapter). Qed.

Lemma resolved_LoadedModules this M adapter s :
  LoadedModules (resolved this M adapter s)
  = if isa_ClangModule adapter then LoadedModules s
    else <[Name M := adapter]> (LoadedModules s).
Proof. unfold resolved. by destruct (isa_ClangModule adapter). Qed.

Lemma resolved_lookup this M adapter s w M' :
  Modules s !! this = Some M →
  Modules (resolved this M adapter s) !! w = Some M' →
  (w = this
   ∧ M' = mkClangModule (Name M) (DebugModuleName M) (Comp M) (clangModule M)
            (mkPointerIntPair
               (if isa_ClangModule adapter then None else Some adapter) true))
  ∨ (w ≠ this ∧ Modules s !! w = Some M').
Proof.
  intros HM. rewrite (resolved_Modules _ _ _ _ HM).
  destruct (decide (this = w)) as [<-|Hne].
  - rewrite list_lookup_insert_eq by (by eapply lookup_lt_Some).
    intros [= <-]. by left.
  - rewrite list_lookup_insert_ne by done. right. by split.
Qed.

Lemma cached_flag m s m' :
  cached (update_cacheEntry m (setInt true) s) m' = cached s m'.
Proof.
  unfold cached, update_cacheEntry, set_ModuleWrappers. cbn [ModuleWrappers].
  destruct (ModuleWrappers s !! m) as [e|] eqn:He; [|done].
  destruct (decide (m = m')) as [<-|Hne].
  - by rewrite lookup_insert_eq, He.
  - by rewrite lookup_insert_ne.
Qed.

Lemma wrapped_lookup m c s w M' :
  Modules (wrapped m c s) !! w = Some M' →
  Modules s !! w = Some M'
  ∨ (w = length (Modules s)
     ∧ M' = ClangModule_new (getFullModuleName m) (default (Components s) c) m).
Proof.
  unfold wrapped. cbn [Modules]. intros [?|[Hle Hw]]%lookup_app_Some; [by left|].
  right. destruct (w - length (Modules s)) as [|k] eqn:Hk; simpl in Hw; [|done].
  injection Hw as <-. split; [lia | done].
Qed.

Lemma unique_wrappers_step s s' :
  importer_step C s s' → unique_wrappers s → unique_wrappers s'.
Proof.
  intros Hstep U. destruct Hstep as [m c s Hc|this M adapter s HM _ _ _ _|m s|s|w0 s|this s|s];
    intros w M' HM'.
  - apply wrapped_lookup in HM' as [Hold|[-> ->]].
    + rewrite cached_wrapped_ne; [by apply U|].
      intros Heq. apply U in Hold. rewrite <- Heq in Hold. congruence.
    + apply cached_wrapped.
  - unfold cached. rewrite resolved_ModuleWrappers.
    apply (resolved_lookup _ _ _ _ _ _ HM) in HM' as [[-> ->]|[_ Hold]].
    + by apply (U _ _ HM).
    + by apply U.
  - rewrite cached_flag. by apply U.
  - by apply U.
  - unfold remember_first in *. destruct (firstClangModule s); by apply U.
  - by apply U.
  - by apply U.
Qed.

Lemma adapters_wf_fresh : adapters_wf fresh_Implementation.
Proof. split; intros w M; simpl; by rewrite lookup_nil. Qed.

Lemma unique_wrappers_fresh : unique_wrappers fresh_Implementation.
Proof. intros w M. simpl. by rewrite lookup_nil. Qed.

Lemma adapters_wf_same s s' :
  Modules s' = Modules s → LoadedModules s' = LoadedModules s →
  adapters_wf s → adapters_wf s'.
Proof.
  intros HM HL [A1 A2 A3]. split; intros w M; rewrite HM, ?HL; eauto.
Qed.

Lemma adapters_wf_step s s' :
  importer_step C s s' → adapters_wf s → adapters_wf s'.
Proof.
  intros Hstep A.
  destruct Hstep as [m c s Hc|this M adapter s HM Ht Hi Ha Hcond|m s|s|w0 s|this s|s];
    try (by apply (adapters_wf_same s)).
  - destruct A as [A1 A2 A3]. split.
    + intros w M' a HM'. apply wrapped_lookup in HM' as [Hold|[-> ->]]; by eauto.
    + intros w M' HM'. apply wrapped_lookup in HM' as [Hold|[-> ->]]; by eauto.
    + intros w M' a HM'. apply wrapped_lookup in HM' as [Hold|[-> ->]]; by eauto.
  - destruct A as [A1 A2 A3]. split.
    + intros w M' a HM' Hp.
      apply (resolved_lookup _ _ _ _ _ _ HM) in HM' as [[-> ->]|[_ Hold]]; [|by eauto].
      simpl in Hp. by destruct (isa_ClangModule adapter) eqn:Hisa; simplify_eq.
    + intros w M' HM' Hp.
      apply (resolved_lookup _ _ _ _ _ _ HM) in HM' as [[-> ->]|[_ Hold]]; by eauto.
    + intros w M' a HM' Hp. rewrite resolved_LoadedModules.
      apply (resolved_lookup _ _ _ _ _ _ HM) in HM' as [[-> ->]|[Hne Hold]].
      * simpl in *. destruct (isa_ClangModule adapter); simplify_eq.
        apply lookup_insert_eq.
      * pose proof (A3 _ _ _ Hold Hp) as Hreg.
        destruct (isa_ClangModule adapter) eqn:Hisa; [done|].
        destruct (decide (Name M = Name M')) as [Heq|Hneq];
          [|by rewrite lookup_insert_ne].
        rewrite Heq, lookup_insert_eq. f_equal.
        rewrite Heq, Hreg in Hcond.
        destruct (Hcond eq_refl) as [?|[?|Hthis]]; simplify_eq; [done|].
        by pose proof (A1 _ _ _ Hold Hp).
  - unfold remember_first. destruct (firstClangModule s); [done|].
    by apply (adapters_wf_same s).
Qed.

(** The states a fresh importer can reach keep both invariants. *)
Lemma reachable_invariants cs s :
  run C cs fresh_Implementation = Ok s →
  wf s ∧ unique_wrappers s ∧ adapters_wf s.
Proof.
  intros Hr. split; [by eapply (run_wf C), Hr; apply wf_fresh|].
  apply (run_steps C) in Hr. split.
  - eapply (steps_keep C unique_wrappers); [apply unique_wrappers_step | done |].
    apply unique_wrappers_fresh.
  - eapply (steps_keep C adapters_wf); [apply adapters_wf_step | done |].
    apply adapters_wf_fresh.
Qed.

End InvariantsOfTheModuleSide.

Section MorePropertiesOfTheModuleSide.
Context (C : Collaborators).

Lemma getTopLevelModule_top m : isSubModule m = false → getTopLevelModule m = m.
Proof. by destruct m. Qed.

Lemma getTopLevelModule_idem m :
  getTopLevelModule (getTopLevelModule m) = getTopLevelModule m.
Proof. induction m; done. Qed.

(** X1, one wrapper per foreign module. In every state a fresh importer
    can reach, a wrapper in the arena is the wrapper the cache holds for
    its module, so two wrappers of one foreign module are one object. *)
Theorem one_wrapper_per_module cs s w1 w2 M1 M2 :
  run C cs fresh_Implementation = Ok s →
  Modules s !! w1 = Some M1 →
  Modules s !! w2 = Some M2 →
  clangModule M1 = clangModule M2 →
  w1 = w2 ∧ cached s (clangModule M1) = Some w1.
Proof.
  intros (_ & U & _)%reachable_invariants H1 H2 Heq.
  pose proof (U _ _ H1) as Hc1. pose proof (U _ _ H2) as Hc2.
  rewrite <- Heq in Hc2. split; [congruence | done].
Qed.


(** The result of [getAdapterModule] is stored, resolved, in the wrapper
    of the top-level module. *)
Lemma getAdapterModule_rec_stored fuel this s M r s' :
  wf s →
  Modules s !! this = Some M →
  getAdapterModule_rec C fuel this s = Ok (r, s') →
  ∃ w Mw, Modules s' !! w = Some Mw
          ∧ adapterModule Mw = mkPointerIntPair r true
          ∧ clangModule Mw = getTopLevelModule (clangModule M).
Proof.
  revert this s M. induction fuel as [|fuel IH]; intros this s M W HM; [done|].
  destruct (isTopLevel M) eqn:Ht.
  - intros H.
    destruct (getAdapterModule_rec_top C _ _ _ _ _ _ HM Ht H)
      as (M' & HM' & (_&_&_&Hcm&_) & Ha & _).
    exists this, M'. split; [done|]. split; [done|].
    rewrite Hcm. symmetry. apply getTopLevelModule_top.
    unfold isTopLevel in Ht. by destruct (isSubModule _).
  - rewrite (getAdapterModule_rec_sub C _ _ _ _ HM Ht).
    destruct (getWrapperModule _ _ s) as [w s1] eqn:Hw. intros H.
    pose proof (wf_grows _ _ W (getWrapperModule_grows _ _ _ _ _ Hw)) as W1.
    destruct (wf_cached _ W1 _ _ (getWrapperModule_cached _ _ _ _ _ Hw))
      as (Mw1 & HMw1 & Hcm1).
    destruct (IH _ _ _ W1 HMw1 H) as (w' & Mw & HMw & Ha & Hcm).
    exists w', Mw. split; [done|]. split; [done|].
    by rewrite Hcm, Hcm1, getTopLevelModule_idem.
Qed.



Lemma LoadedModules_step s s' n a :
  importer_step C s s' →
  isa_ClangModule a = false →
  LoadedModules s !! n = Some a → LoadedModules s' !! n = Some a.
Proof.
  intros Hstep Hover Hn.
  destruct Hstep as [m c s Hc|this M adapter s HM Ht Hi Ha Hcond|m s|s|w0 s|this s|s];
    try done.
  - rewrite resolved_LoadedModules.
    destruct (isa_ClangModule adapter) eqn:Hisa; [done|].
    destruct (decide (Name M = n)) as [<-|Hne]; [|by rewrite lookup_insert_ne].
    rewrite lookup_insert_eq. f_equal. rewrite Hn in Hcond.
    destruct (Hcond eq_refl) as [?|[?|?]]; by simplify_eq.
  - unfold remember_first. by destruct (firstClangModule s).
Qed.

(** X4, the registry of loaded modules. A module other than a wrapper
    that is registered under a name in [LoadedModules] is never replaced:
    the assertion of [getAdapterModule] stops the call that would. *)
Theorem LoadedModules_overlay_is_kept cs s s' n a :
  run C cs s = Ok s' →
  LoadedModules s !! n = Some a →
  isa_ClangModule a = false →
  LoadedModules s' !! n = Some a.
Proof.
  intros Hr Hn Hover.
  eapply (steps_keep C (λ s, LoadedModules s !! n = Some a)); [| |done].
  - intros ????. by eapply LoadedModules_step.
  - by eapply run_steps.
Qed.

(** X5, the adapter is registered. When [getAdapterModule] returns an
    adapter for a wrapper, that module is registered in [LoadedModules]
    under the name of the wrapper's top-level module, and stays so. *)
Theorem adapter_is_registered cs s this M a s' cs' s'' :
  run C cs fresh_Implementation = Ok s →
  Modules s !! this = Some M →
  getAdapterModule C this s = Ok (Some a, s') →
  run C cs' s' = Ok s'' →
  LoadedModules s'' !! getTopLevelModuleName M = Some a.
Proof.
  intros Hr HM H Hr'.
  destruct (reachable_invariants C _ _ Hr) as (W & _ & A).
  destruct (getAdapterModule_rec_stored _ _ _ _ _ _ W HM H) as (w & Mw & HMw & Ha & Hcm).
  assert (adapters_wf s') as A'.
  { eapply (steps_keep C adapters_wf); [apply adapters_wf_step | | done].
    by eapply getAdapterModule_rec_steps. }
  assert (wf s') as W'.
  { eapply wf_grows; [done|]. by eapply getAdapterModule_rec_quiet. }
  assert (isa_ClangModule a = false) as Hover.
  { apply (adapter_is_overlay _ A' _ _ _ HMw). by rewrite Ha. }
  eapply (steps_keep C (λ s, LoadedModules s !! getTopLevelModuleName M = Some a));
    [| by eapply run_steps |].
  - intros ????. by eapply LoadedModules_step.
  - unfold getTopLevelModuleName. rewrite <- Hcm.
    destruct (wf_named _ W' _ _ HMw) as [<- _].
    apply (adapter_registered _ A' _ _ _ HMw). by rewrite Ha.
Qed.

(** X6, submodules have no adapter of their own. The binding of a
    wrapper of a submodule is never written: it stays null and
    unresolved. *)
Theorem submodule_wrapper_has_no_binding cs s w M :
  run C cs fresh_Implementation = Ok s →
  Modules s !! w = Some M →
  isTopLevel M = false →
  adapterModule M = mkPointerIntPair None false.
Proof.
  intros (_ & _ & A)%reachable_invariants HM Ht.
  pose proof (adapter_of_top _ A _ _ HM) as Htop.
  destruct (adapterModule M) as [[a|] [|]]; try done;
    rewrite Htop in Ht; done.
Qed.

End MorePropertiesOfTheModuleSide.

(** Reading a field of a state built by the setters. *)
Ltac read_fields :=
  cbn [update_cacheEntry new_ClangModule new_Component wrapped
       set_Modules set_Components set_CurrentGeneration set_LoadedModules
       set_ModuleWrappers set_Generation set_ImportCounter
       set_firstClangModule set_getModuleQueries set_forcedModules
       Modules Components CurrentGeneration LoadedModules ModuleWrappers
       Generation ImportCounter firstClangModule getModuleQueries forcedModules
       getPointer getInt setPointer setInt].

Section CountersAndCallsOfTheModuleSide.
Context (C : Collaborators).

Lemma just_loaded_fields m s :
  ImportCounter (just_loaded m s) = S (ImportCounter s)
  ∧ firstClangModule (just_loaded m s)
    = match firstClangModule s with
      | Some w => Some w
      | None => Some (length (Modules s))
      end
  ∧ ModuleWrappers (just_loaded m s) !! m
    = Some (mkPointerIntPair (Some (length (Modules s))) true).
Proof.
  unfold just_loaded, remember_first, wrapped. read_fields.
  destruct (firstClangModule s); read_fields;
    (split; [done|]); (split; [done|]);
    rewrite lookup_insert_eq; cbv iota; by rewrite lookup_insert_eq.
Qed.

Lemma loadModule_fields importLoc path s r s' :
  loadModule C importLoc path s = Ok (r, s') →
  ImportCounter s' = S (ImportCounter s)
  ∧ firstClangModule s'
    = match firstClangModule s with
      | Some w => Some w
      | None => if loads_new_module C path s then Some (length (Modules s)) else None
      end.
Proof.
  unfold loads_new_module.
  destruct (Instance_loadModule C (ImportCounter s) (map fst path)) as [m|] eqn:Hl.
  - destruct (cached s m) as [w|] eqn:Hc.
    + rewrite (loadModule_hit C _ _ _ _ _ Hl Hc). intros [= <- <-].
      rewrite bool_decide_eq_false_2 by done. read_fields.
      split; [done|]. by destruct (firstClangModule s).
    + rewrite (loadModule_miss C _ _ _ _ Hl Hc).
      destruct (forAllVisibleModules _ _ _ _) as [s1| | |] eqn:Hf; try done.
      cbn [mbind result_mbind result_bind]. intros [= <- <-].
      rewrite bool_decide_eq_true_2 by done.
      destruct (forAllVisibleModules_spec C _ _ _ _ Hf) as (_ & _ & _ & Hi & Hfi & _).
      destruct (just_loaded_fields m s) as (Hi0 & Hf0 & _).
      unfold bumpGeneration. read_fields. rewrite Hi, Hfi, Hi0, Hf0. done.
  - rewrite (loadModule_failure C _ _ _ Hl). intros [= <- <-]. read_fields.
    split; [done|]. by destruct (firstClangModule s).
Qed.

Lemma exec_fields c s s' :
  exec C c s = Ok s' →
  ImportCounter s' = ImportCounter s + (if is_loadModule c then 1 else 0)
  ∧ firstClangModule s'
    = match firstClangModule s with
      | Some w => Some w
      | None => if call_loads_new C c s then Some (length (Modules s)) else None
      end.
Proof.
  destruct (is_loadModule c) eqn:Hc.
  - destruct c as [loc path| | | |]; try done. simpl.
    destruct (loadModule C loc path s) as [[r s1]| | |] eqn:Hl; try done.
    intros [= <-]. destruct (loadModule_fields _ _ _ _ _ Hl) as [-> ->].
    split; [lia | done].
  - intros H. destruct (exec_quiet C _ _ _ Hc H) as [_ (_ & _ & -> & -> & _)].
    split; [lia|]. destruct c; try done; by destruct (firstClangModule s).
Qed.


(** X8, the first Clang module. Once [firstClangModule] is set, no call
    changes it. *)
Theorem firstClangModule_is_kept cs s s' w :
  run C cs s = Ok s' →
  firstClangModule s = Some w →
  firstClangModule s' = Some w.
Proof.
  revert s. induction cs as [|c cs IH]; intros s.
  - by intros [= <-].
  - intros (s1 & He & Hr)%run_cons Hf. apply (IH _ Hr).
    destruct (exec_fields _ _ _ He) as [_ ->]. by rewrite Hf.
Qed.

(** X9, and it is set by [loadModule] alone: starting without one, there
    is a first Clang module after a run exactly when some call of
    [loadModule] in it wrapped a module that had no wrapper; wrappers made
    by [getWrapperModule] do not count. *)
Theorem firstClangModule_set_by_loadModule cs s s' :
  run C cs s = Ok s' →
  firstClangModule s = None →
  firstClangModule s' = None ↔ modules_loaded C cs s = 0.
Proof.
  revert s. induction cs as [|c cs IH]; intros s.
  - intros [= <-] Hf. simpl. by rewrite Hf.
  - intros (s1 & He & Hr)%run_cons Hf. simpl. rewrite He.
    destruct (exec_fields _ _ _ He) as [_ Hf1]. rewrite Hf in Hf1.
    destruct (call_loads_new C c s).
    + assert (firstClangModule s' = Some (length (Modules s))) as ->;
        [|split; [done | lia]].
      clear IH He Hf. revert s1 Hr Hf1. generalize (length (Modules s)) as w.
      induction cs as [|c' cs IH]; intros w s1; [by intros [= <-]|].
      intros (s2 & He & Hr)%run_cons Hf. apply (IH _ _ Hr).
      destruct (exec_fields _ _ _ He) as [_ ->]. by rewrite Hf.
    + rewrite (IH _ Hr Hf1). simpl. done.
Qed.

(** X10, the module of a declaration. For a declaration owned by a
    module, [getClangModuleForDecl] returns a wrapper of the top-level
    module of the owner, never of a submodule, and declarations of modules
    under the same top-level module get the same wrapper. *)
Theorem getClangModuleForDecl_top_level cs s D r s' :
  run C cs fresh_Implementation = Ok s →
  getClangModuleForDecl (Some D) s = (r, s') →
  ∃ w M, r = Some w
    ∧ Modules s' !! w = Some M
    ∧ clangModule M = getTopLevelModule D
    ∧ isTopLevel M = true
    ∧ ∀ D', getTopLevelModule D' = getTopLevelModule D →
        getClangModuleForDecl (Some D') s' = (Some w, s').
Proof.
  intros (W & _)%reachable_invariants. unfold getClangModuleForDecl.
  destruct (getWrapperModule (getTopLevelModule D) None s) as [w s1] eqn:Hw.
  intros [= <- <-].
  pose proof (wf_grows _ _ W (getWrapperModule_grows _ _ _ _ _ Hw)) as W1.
  pose proof (getWrapperModule_cached _ _ _ _ _ Hw) as Hc.
  destruct (wf_cached _ W1 _ _ Hc) as (M & HM & Hcm).
  exists w, M. split_and!; try done.
  - unfold isTopLevel. by rewrite Hcm, isSubModule_getTopLevelModule.
  - intros D' ->. by rewrite (getWrapperModule_hit _ None _ _ Hc).
Qed.

(** X11, what [loadModule] returns. The result is null exactly when the
    frontend does not load the module; otherwise it is the wrapper the
    cache holds for the loaded module, and the flag of that cache entry is
    set when the call returns. *)
Theorem loadModule_returns_cached_wrapper importLoc path s r s' :
  loadModule C importLoc path s = Ok (r, s') →
  match Instance_loadModule C (ImportCounter s) (map fst path) with
  | None => r = None
  | Some m =>
      ∃ w, r = Some w
        ∧ ModuleWrappers s' !! m = Some (mkPointerIntPair (Some w) true)
  end.
Proof.
  destruct (Instance_loadModule C (ImportCounter s) (map fst path)) as [m|] eqn:Hl.
  - destruct (cached s m) as [w|] eqn:Hc.
    + rewrite (loadModule_hit C _ _ _ _ _ Hl Hc). intros [= <- <-].
      exists w. split; [done|]. unfold cached in Hc. read_fields.
      destruct (ModuleWrappers s !! m) as [e|] eqn:He; [|done]. simpl in Hc.
      rewrite lookup_insert_eq. unfold setInt. by rewrite Hc.
    + rewrite (loadModule_miss C _ _ _ _ Hl Hc).
      destruct (forAllVisibleModules _ _ _ _) as [s1| | |] eqn:Hf; try done.
      cbn [mbind result_mbind result_bind]. intros [= <- <-].
      exists (length (Modules s)). split; [done|].
      destruct (forAllVisibleModules_spec C _ _ _ _ Hf) as (G & _).
      destruct (just_loaded_fields m s) as (_ & _ & He).
      destruct (grows_entry _ _ G _ _ He) as (e' & He' & [Hp Hi]).
      unfold bumpGeneration. read_fields. rewrite He'. f_equal.
      specialize (Hp _ eq_refl). specialize (Hi eq_refl).
      destruct e'; simpl in *; congruence.
  - rewrite (loadModule_failure C _ _ _ Hl). by intros [= <- <-].
Qed.

Lemma reexports_entries comp tla exported exports s exports' s' :
  foldl (reexport_one C comp tla) (Ok (exports, s)) exported = Ok (exports', s') →
  ∃ new, exports' = exports ++ new
    ∧ length new = length exported
    ∧ Forall (λ e : ImportedModule,
                e.1 = [] ∧ (Some e.2 ≠ tla ∨ isa_ClangModule e.2 = true)) new.
Proof.
  revert exports s. induction exported as [|m l IH]; intros exports s; simpl.
  - intros [= <- <-]. exists []. by rewrite app_nil_r.
  - destruct (getWrapperModule m (Some comp) s) as [w s0] eqn:Hw.
    destruct (getAdapterModule C w s0) as [[a s2]| | |] eqn:Ha;
      cbn [mbind result_mbind result_bind];
      [|intros (? & ? & ? & _)%reexports_quiet; done..].
    intros (new & -> & Hlen & Hall)%IH.
    eexists (_ :: new). rewrite <- app_assoc. split; [done|].
    split; [simpl; lia|]. apply Forall_cons. split; [|done].
    split; [done|]. simpl. destruct a as [a|]; [|by right].
    case_bool_decide; [by right | by left].
Qed.

(** X12, the shape of the re-exports. [getReexportedModules] keeps the
    entries it is given and appends one entry for each module the wrapped
    module exports, in order, each with an empty access path. *)
Theorem getReexportedModules_one_per_export module M exports s exports' s' :
  Modules s !! module = Some M →
  getReexportedModules C module exports s = Ok (exports', s') →
  ∃ new, exports' = exports ++ new
    ∧ length new = length (getExportedModules C (clangModule M))
    ∧ Forall (λ e : ImportedModule, e.1 = []) new.
Proof.
  intros HM. unfold getReexportedModules.
  rewrite (proj2 (deref_Ok _ _ _) HM). cbn [mbind result_mbind result_bind].
  destruct (getAdapterModule C module s) as [[tla s1]| | |] eqn:Ha; try done.
  cbn [mbind result_mbind result_bind].
  intros (new & -> & Hlen & Hall)%reexports_entries.
  exists new. split_and!; try done.
  eapply Forall_impl; [done|]. by intros e [? _].
Qed.


End CountersAndCallsOfTheModuleSide.

(** * More properties of names and lookup *)

Lemma isSwiftReservedName_false name :
  isSwiftReservedName name = false ↔ name ≠ "true" ∧ name ≠ "false".
Proof.
  unfold isSwiftReservedName.
  destruct (String.eqb_spec name "true") as [->|H1];
    [split; [done | by intros [? _]]|].
  destruct (String.eqb_spec name "false") as [->|H2];
    [split; [done | by intros [_ ?]]|].
  done.
Qed.

Lemma String_append_empty (s : string) : s +:+ "" = s.
Proof.
  induction s as [|x s IH]; [done|].
  change (String x (s +:+ "") = String x s). by rewrite IH.
Qed.

(** X14, names from Clang. A Clang name has a host name exactly when it
    is an identifier and its spelling followed by the suffix is not
    [true] or [false]; the host name is that spelling. The empty name and
    names of other kinds have none. *)
Theorem importName_fromClang_spec name suffix hostName :
  importName_fromClang name suffix = Some hostName
  ↔ ∃ nameStr, name = DeclarationName_Identifier nameStr
      ∧ hostName = nameStr +:+ suffix
      ∧ hostName ≠ "true" ∧ hostName ≠ "false".
Proof.
  unfold importName_fromClang. split.
  - destruct name as [|nameStr|k]; try done.
    destruct (String.eqb_spec suffix "") as [->|Hs].
    + destruct (isSwiftReservedName nameStr) eqn:Hr; [done|]. intros [= <-].
      apply isSwiftReservedName_false in Hr as [? ?].
      exists nameStr. by rewrite String_append_empty.
    + destruct (isSwiftReservedName (nameStr +:+ suffix)) eqn:Hr; [done|].
      intros [= <-]. apply isSwiftReservedName_false in Hr as [? ?]. by exists nameStr.
  - intros (nameStr & -> & -> & H1 & H2).
    assert (isSwiftReservedName (nameStr +:+ suffix) = false) as Hr
      by by apply isSwiftReservedName_false.
    destruct (String.eqb_spec suffix "") as [->|Hs]; [|by rewrite Hr].
    rewrite String_append_empty in *. by rewrite Hr.
Qed.

Section MorePropertiesOfNames.
Context (F : Frontend).

(** X15, round trip of names. A host name has the foreign name [c]
    exactly when the Clang identifier [c] has that host name back (with no
    suffix) and the name is neither an operator nor a Clang keyword. *)
Theorem importName_round_trip name clangName :
  importName F name = Some clangName
  ↔ importName_fromClang (DeclarationName_Identifier clangName) "" = Some name
    ∧ isOperator F name = false
    ∧ getTokenID F name = tok_identifier.
Proof.
  unfold importName, importName_fromClang. simpl. split.
  - destruct (isOperator F name); [done|].
    destruct (isSwiftReservedName name) eqn:Hr; [done|].
    case_bool_decide as Ht; [done|]. intros [= <-]. rewrite Hr.
    split_and!; [done..|]. by destruct (decide (getTokenID F name = tok_identifier)).
  - intros (Hb & -> & Ht).
    destruct (isSwiftReservedName clangName) eqn:Hr; [done|].
    injection Hb as ->. rewrite Hr. by rewrite bool_decide_eq_false_2 by by intros ?.
Qed.

Lemma lookupValue_steps_append accessPath name results results' lookups :
  lookupValue_steps F accessPath name results = Ok (results', lookups) →
  ∃ new, results' = results ++ new
    ∧ ∀ results0,
        lookupValue_steps F accessPath name results0 = Ok (results0 ++ new, lookups).
Proof.
  unfold lookupValue_steps.
  destruct (negb (length accessPath <=? 1)); [done|].
  destruct (negb (accessPath_refers_to accessPath name));
    [intros [= <- <-]; exists []; split; [by rewrite app_nil_r|];
     intros ?; by rewrite app_nil_r|].
  cbv zeta. destruct (importName F _) as [c|];
    [|intros [= <- <-]; exists []; split; [by rewrite app_nil_r|];
      intros ?; by rewrite app_nil_r].
  destruct (negb (endswith name "Proto") && _); intros [= <- <-];
    eexists; (split; [done|]); done.
Qed.

(** X16, [lookupValue] only appends. What is in [results] before the call
    is kept, in place; what the call appends, and the lookups it makes, do
    not depend on it; and at most two lookups are made. *)
Theorem lookupValue_appends module accessPath name lookupKind results results' lookups :
  lookupValue F module accessPath name lookupKind results = Ok (results', lookups) →
  ∃ new, results' = results ++ new
    ∧ length lookups ≤ 2
    ∧ ∀ module0 lookupKind0 results0,
        lookupValue F module0 accessPath name lookupKind0 results0
        = Ok (results0 ++ new, lookups).
Proof.
  rewrite lookupValue_is_steps. intros H.
  destruct (lookupValue_steps_append _ _ _ _ _ H) as (new & -> & Hany).
  exists new. split; [done|]. split.
  - revert H. unfold lookupValue_steps.
    destruct (negb (length accessPath <=? 1)); [done|].
    destruct (negb (accessPath_refers_to accessPath name));
      [intros [= _ <-]; simpl; lia|].
    cbv zeta. destruct (importName F _) as [c|]; [|intros [= _ <-]; simpl; lia].
    destruct (negb (endswith name "Proto") && _); intros [= _ <-]; simpl; lia.
  - intros module0 lookupKind0 results0. rewrite lookupValue_is_steps. apply Hany.
Qed.

(** X17, the access path. With more than one segment the assertion
    fails; with one segment that is not the name nothing is looked up and
    [results] is returned as it is; with one segment that is the name the
    call is the call with no access path. *)
Theorem lookupValue_accessPath module accessPath name lookupKind results :
  match accessPath with
  | [] => True
  | [(front, _)] =>
      lookupValue F module accessPath name lookupKind results
      = if String.eqb front name
        then lookupValue F module [] name lookupKind results
        else Ok (results, [])
  | _ => lookupValue F module accessPath name lookupKind results = AssertionFailure
  end.
Proof.
  destruct accessPath as [|[front loc] [|second rest]]; [done| |done].
  rewrite !lookupValue_is_steps. unfold lookupValue_steps. simpl.
  by destruct (String.eqb front name).
Qed.


(** X19, the macro comes first. When the name looked up has a macro that
    imports, its declaration is the first one appended, before what the
    lookups give. *)
Theorem lookupValue_macro_first module accessPath name lookupKind results results' lookups clangName mode clangMacro valueDecl :
  lookupValue F module accessPath name lookupKind results = Ok (results', lookups) →
  head lookups = Some (clangName, mode) →
  hasMacroDefinition F clangName = true →
  getMacroInfo F clangName = Some clangMacro →
  importMacro F clangName clangMacro = Some valueDecl →
  results' !! length results = Some valueDecl.
Proof.
  rewrite lookupValue_is_steps. unfold lookupValue_steps.
  destruct (negb (length accessPath <=? 1)); [done|].
  destruct (negb (accessPath_refers_to accessPath name)); [by intros [= <- <-]|].
  cbv zeta. destruct (importName F _) as [c|] eqn:Hi; [|by intros [= <- <-]].
  apply importName_Some in Hi as Hc. rewrite <- Hc.
  intros H Hhead Hmacro Hinfo Himp.
  assert (c = clangName) as ->.
  { destruct (negb (endswith name "Proto") && _); injection H as _ <-;
      simpl in Hhead; congruence. }
  assert (imported_macro F clangName clangName = [valueDecl]) as Hm.
  { unfold imported_macro. by rewrite Hmacro, Hinfo, Himp. }
  rewrite Hm in H.
  destruct (negb (endswith name "Proto") && _); injection H as <- _;
    rewrite lookup_app_r by done; by rewrite Nat.sub_diag.
Qed.

End MorePropertiesOfNames.

(** * Properties of the enumeration of visible declarations *)

Section PropertiesOfVisibleDeclarations.
Context (F : Frontend) (V : VisibleDeclarations).

(** With no access path [lookupValue] returns. *)
Lemma lookupValue_no_path_returns module name lookupKind results :
  ∃ results' lookups,
    lookupValue F module [] name lookupKind results = Ok (results', lookups).
Proof.
  rewrite lookupValue_is_steps. unfold lookupValue_steps. simpl.
  destruct (importName F _); [|by eauto].
  destruct (negb (endswith name "Proto") && _); by eauto.
Qed.

Lemma foldl_forward ModuleFilter Results consumed :
  foldl (forward_to_NextConsumer V ModuleFilter) consumed Results
  = consumed ++ List.filter (passes_filter V ModuleFilter) Results.
Proof.
  revert consumed. induction Results as [|VD l IH]; intros consumed; simpl.
  - by rewrite app_nil_r.
  - rewrite IH. unfold forward_to_NextConsumer, passes_filter.
    destruct (match ModuleFilter with Some _ => _ | None => _ end);
      [by rewrite <- app_assoc | done].
Qed.

Lemma FoundDecl_forwards ModuleFilter ND consumed :
  FoundDecl F V ModuleFilter ND consumed
  = Ok (consumed ++ forwarded_for F V ModuleFilter ND).
Proof.
  unfold FoundDecl, forwarded_for, found_by_name.
  destruct (String.eqb _ ""); [by rewrite app_nil_r|].
  destruct (NamedDecl_isModulePrivate V ND); [by rewrite app_nil_r|].
  destruct (lookupValue_no_path_returns None (NamedDecl_getName V ND)
              UnqualifiedLookup []) as (Results & lookups & ->).
  cbn [mbind result_mbind result_bind]. by rewrite foldl_forward.
Qed.

Lemma enumeration_forwards ModuleFilter (reported : list nat) consumed :
  foldl (λ acc ND, consumed ← acc; FoundDecl F V ModuleFilter ND consumed)
    (Ok consumed) reported
  = Ok (consumed ++ flat_map (forwarded_for F V ModuleFilter) reported).
Proof.
  revert consumed. induction reported as [|ND l IH]; intros consumed; simpl.
  - by rewrite app_nil_r.
  - cbn [mbind result_mbind result_bind]. rewrite FoundDecl_forwards, IH.
    by rewrite <- app_assoc.
Qed.


Lemma filter_flat_map {A B : Type} (P : B → bool) (f : A → list B) (l : list A) :
  List.filter P (flat_map f l) = flat_map (λ x, List.filter P (f x)) l.
Proof.
  induction l as [|x l IH]; simpl; [done|].
  by rewrite List.filter_app, IH.
Qed.

Lemma filter_filter_true {A : Type} (P : A → bool) (l : list A) :
  List.filter P (List.filter (λ _, true) l) = List.filter P l.
Proof. induction l as [|x l IH]; simpl; [done|]. destruct (P x); by rewrite IH. Qed.

(** X21, the filter by module. The enumeration for a module gives the
    consumer what the enumeration without a module gives it, without the
    declarations of other modules, in the same order. *)
Theorem lookupVisibleDecls_in_module_filters M AccessPath LookupKind all :
  lookupVisibleDecls F V [] = Ok all →
  lookupVisibleDecls_in F V (Some M) AccessPath LookupKind []
  = Ok (List.filter (λ VD, bool_decide (getModuleContext V VD = M)) all).
Proof.
  unfold lookupVisibleDecls_in, lookupVisibleDecls, lookupVisibleDecls_into.
  rewrite !enumeration_forwards. simpl. intros [= <-]. f_equal.
  rewrite filter_flat_map. induction (Sema_LookupVisibleDecls V) as [|ND l IH];
    simpl; [done|]. rewrite IH. f_equal.
  unfold forwarded_for.
  destruct (String.eqb _ ""); [done|].
  destruct (NamedDecl_isModulePrivate V ND); [done|].
  unfold passes_filter. by rewrite filter_filter_true.
Qed.

(** X22, what is forwarded. A declaration reaches the consumer exactly
    when [lookupValue] finds it under the name of a reported declaration
    that has a name and is not private to its module, and it passes the
    filter; declarations without a name and module-private declarations
    contribute nothing. *)
Theorem lookupVisibleDecls_forwards_found M AccessPath LookupKind forwarded VD :
  lookupVisibleDecls_in F V M AccessPath LookupKind [] = Ok forwarded →
  VD ∈ forwarded
  ↔ ∃ ND, ND ∈ Sema_LookupVisibleDecls V
      ∧ NamedDecl_getName V ND ≠ ""
      ∧ NamedDecl_isModulePrivate V ND = false
      ∧ VD ∈ found_by_name F (NamedDecl_getName V ND)
      ∧ passes_filter V M VD = true.
Proof.
  unfold lookupVisibleDecls_in, lookupVisibleDecls_into.
  rewrite enumeration_forwards. simpl. intros [= <-].
  rewrite list_elem_of_In, in_flat_map. split.
  - intros (ND & HND & HVD). exists ND. rewrite list_elem_of_In. split; [done|].
    unfold forwarded_for in HVD.
    destruct (String.eqb_spec (NamedDecl_getName V ND) ""); [done|].
    destruct (NamedDecl_isModulePrivate V ND); [done|].
    apply filter_In in HVD as [? ?]. by rewrite list_elem_of_In.
  - intros (ND & HND & Hname & Hpriv & Hfound & Hpass). exists ND.
    rewrite <- list_elem_of_In. split; [done|]. unfold forwarded_for.
    destruct (String.eqb_spec (NamedDecl_getName V ND) ""); [done|].
    rewrite Hpriv. apply filter_In. by rewrite <- list_elem_of_In.
Qed.

End PropertiesOfVisibleDeclarations.

(** * The further properties at work in the small worlds *)

(** After the session the wrapper 1 is the one wrapper of [Kit.UI]. *)
Lemma one_wrapper_per_module_witness :
  (run KitWorld Kit_session fresh_Implementation = Ok Kit_used
   ∧ Modules Kit_used !! 1 = Some (ClangModule_new "Kit.UI" 0 Kit_UI))
  ∧ 1 = 1 ∧ cached Kit_used Kit_UI = Some 1.
Proof.
  assert (run KitWorld Kit_session fresh_Implementation = Ok Kit_used) as H1
    by (vm_compute; reflexivity).
  assert (Modules Kit_used !! 1 = Some (ClangModule_new "Kit.UI" 0 Kit_UI)) as H2
    by (vm_compute; reflexivity).
  split; [by split|].
  exact (one_wrapper_per_module KitWorld Kit_session Kit_used 1 1 _ _ H1 H2 H2 eq_refl).
Defined.



(** The overlay of [Kit] stays registered when [Kit] is imported. *)
Lemma LoadedModules_overlay_is_kept_witness :
  (run KitWorld [Call_loadModule 0 [("Kit", 0)]] Kit_UI_resolved = Ok Kit_UI_later
   ∧ LoadedModules Kit_UI_resolved !! "Kit" = Some (SwiftModule_ptr 7)
   ∧ isa_ClangModule (SwiftModule_ptr 7) = false)
  ∧ LoadedModules Kit_UI_later !! "Kit" = Some (SwiftModule_ptr 7).
Proof.
  assert (run KitWorld [Call_loadModule 0 [("Kit", 0)]] Kit_UI_resolved
          = Ok Kit_UI_later) as H1 by (vm_compute; reflexivity).
  assert (LoadedModules Kit_UI_resolved !! "Kit" = Some (SwiftModule_ptr 7)) as H2
    by (vm_compute; reflexivity).
  assert (isa_ClangModule (SwiftModule_ptr 7) = false) as H3 by reflexivity.
  split; [by repeat apply conj|].
  exact (LoadedModules_overlay_is_kept KitWorld _ _ _ _ _ H1 H2 H3).
Defined.

(** The adapter found for the wrapper of [Kit.UI] is registered under
    [Kit], also after [Kit] was imported. *)
Lemma adapter_is_registered_witness :
  (run KitWorld [Call_getWrapperModule Kit_UI None] fresh_Implementation
   = Ok Kit_UI_wrapped
   ∧ Modules Kit_UI_wrapped !! 0 = Some (ClangModule_new "Kit.UI" 0 Kit_UI)
   ∧ getAdapterModule KitWorld 0 Kit_UI_wrapped
     = Ok (Some (SwiftModule_ptr 7), Kit_UI_resolved)
   ∧ run KitWorld [Call_loadModule 0 [("Kit", 0)]] Kit_UI_resolved = Ok Kit_UI_later)
  ∧ LoadedModules Kit_UI_later !! "Kit" = Some (SwiftModule_ptr 7).
Proof.
  assert (run KitWorld [Call_getWrapperModule Kit_UI None] fresh_Implementation
          = Ok Kit_UI_wrapped) as H1 by (vm_compute; reflexivity).
  assert (Modules Kit_UI_wrapped !! 0 = Some (ClangModule_new "Kit.UI" 0 Kit_UI))
    as H2 by (vm_compute; reflexivity).
  assert (getAdapterModule KitWorld 0 Kit_UI_wrapped
          = Ok (Some (SwiftModule_ptr 7), Kit_UI_resolved)) as H3
    by (vm_compute; reflexivity).
  assert (run KitWorld [Call_loadModule 0 [("Kit", 0)]] Kit_UI_resolved
          = Ok Kit_UI_later) as H4 by (vm_compute; reflexivity).
  split; [by repeat apply conj|].
  exact (adapter_is_registered KitWorld _ _ _ _ _ _ _ _ H1 H2 H3 H4).
Defined.

(** The wrapper of [Kit.UI] has no binding after the session, in which
    its adapter was asked for. *)
Lemma submodule_wrapper_has_no_binding_witness :
  (run KitWorld Kit_session fresh_Implementation = Ok Kit_used
   ∧ Modules Kit_used !! 1 = Some (ClangModule_new "Kit.UI" 0 Kit_UI)
   ∧ isTopLevel (ClangModule_new "Kit.UI" 0 Kit_UI) = false)
  ∧ adapterModule (ClangModule_new "Kit.UI" 0 Kit_UI) = mkPointerIntPair None false.
Proof.
  assert (run KitWorld Kit_session fresh_Implementation = Ok Kit_used) as H1
    by (vm_compute; reflexivity).
  assert (Modules Kit_used !! 1 = Some (ClangModule_new "Kit.UI" 0 Kit_UI)) as H2
    by (vm_compute; reflexivity).
  assert (isTopLevel (ClangModule_new "Kit.UI" 0 Kit_UI) = false) as H3
    by reflexivity.
  split; [by repeat apply conj|].
  exact (submodule_wrapper_has_no_binding KitWorld _ _ _ _ H1 H2 H3).
Defined.


(** The wrapper of [Kit] stays the first Clang module. *)
Lemma firstClangModule_is_kept_witness :
  (run KitWorld Kit_twice_calls Kit_used = Ok Kit_reused
   ∧ firstClangModule Kit_used = Some 0)
  ∧ firstClangModule Kit_reused = Some 0.
Proof.
  assert (run KitWorld Kit_twice_calls Kit_used = Ok Kit_reused) as H1
    by (vm_compute; reflexivity).
  assert (firstClangModule Kit_used = Some 0) as H2 by (vm_compute; reflexivity).
  split; [by split|].
  exact (firstClangModule_is_kept KitWorld _ _ _ _ H1 H2).
Defined.

(** Wrapping [Kit.UI] and asking for its adapter loads no module, and
    there is no first Clang module. *)
Lemma firstClangModule_set_by_loadModule_witness :
  (run KitWorld [Call_getWrapperModule Kit_UI None; Call_getAdapterModule 0]
     fresh_Implementation = Ok Kit_UI_resolved
   ∧ firstClangModule fresh_Implementation = None)
  ∧ (firstClangModule Kit_UI_resolved = None
     ↔ modules_loaded KitWorld
         [Call_getWrapperModule Kit_UI None; Call_getAdapterModule 0]
         fresh_Implementation = 0).
Proof.
  assert (run KitWorld [Call_getWrapperModule Kit_UI None; Call_getAdapterModule 0]
            fresh_Implementation = Ok Kit_UI_resolved) as H1
    by (vm_compute; reflexivity).
  assert (firstClangModule fresh_Implementation = None) as H2 by reflexivity.
  split; [by split|].
  exact (firstClangModule_set_by_loadModule KitWorld _ _ _ H1 H2).
Defined.

(** A declaration of [Kit.UI] belongs to the wrapper of [Kit]. *)
Lemma getClangModuleForDecl_top_level_witness :
  (run KitWorld Kit_session fresh_Implementation = Ok Kit_used
   ∧ getClangModuleForDecl (Some Kit_UI) Kit_used = (Some 0, Kit_used))
  ∧ ∃ w M, Some 0 = Some w
      ∧ Modules Kit_used !! w = Some M
      ∧ clangModule M = getTopLevelModule Kit_UI
      ∧ isTopLevel M = true
      ∧ ∀ D', getTopLevelModule D' = getTopLevelModule Kit_UI →
          getClangModuleForDecl (Some D') Kit_used = (Some w, Kit_used).
Proof.
  assert (run KitWorld Kit_session fresh_Implementation = Ok Kit_used) as H1
    by (vm_compute; reflexivity).
  assert (getClangModuleForDecl (Some Kit_UI) Kit_used = (Some 0, Kit_used)) as H2
    by (vm_compute; reflexivity).
  split; [by split|].
  exact (getClangModuleForDecl_top_level KitWorld _ _ _ _ _ H1 H2).
Defined.

(** The import of [Kit] returns the wrapper 0, which the cache holds with
    the flag set. *)
Lemma loadModule_returns_cached_wrapper_witness :
  loadModule KitWorld 0 [("Kit", 0)] fresh_Implementation = Ok (Some 0, Kit_loaded)
  ∧ ∃ w, Some 0 = Some w
      ∧ ModuleWrappers Kit_loaded !! Kit = Some (mkPointerIntPair (Some w) true).
Proof.
  assert (loadModule KitWorld 0 [("Kit", 0)] fresh_Implementation
          = Ok (Some 0, Kit_loaded)) as H1 by (vm_compute; reflexivity).
  split; [exact H1|].
  exact (loadModule_returns_cached_wrapper KitWorld _ _ _ _ _ H1).
Defined.

(** [Kit] exports [Kit.UI]: one entry. *)
Lemma getReexportedModules_one_per_export_witness :
  (Modules Kit_used !! 0
   = Some (mkClangModule "Kit" "Kit" 0 Kit
             (mkPointerIntPair (Some (SwiftModule_ptr 7)) true))
   ∧ getReexportedModules KitWorld 0 [] Kit_used
     = Ok ([([], ClangModule_ptr 1)], Kit_used))
  ∧ ∃ new, [([], ClangModule_ptr 1)] = [] ++ new
      ∧ length new = length (getExportedModules KitWorld Kit)
      ∧ Forall (λ e : ImportedModule, e.1 = []) new.
Proof.
  assert (Modules Kit_used !! 0
          = Some (mkClangModule "Kit" "Kit" 0 Kit
                    (mkPointerIntPair (Some (SwiftModule_ptr 7)) true))) as H1
    by (vm_compute; reflexivity).
  assert (getReexportedModules KitWorld 0 [] Kit_used
          = Ok ([([], ClangModule_ptr 1)], Kit_used)) as H2
    by (vm_compute; reflexivity).
  split; [by split|].
  exact (getReexportedModules_one_per_export KitWorld _ _ _ _ _ _ H1 H2).
Defined.


(** The lookup of [Point] appends the class to what is there. *)
Lemma lookupValue_appends_witness :
  lookupValue PointWorld None [] "Point" UnqualifiedLookup
    [mkDecl 100 class_ValueDecl 1]
  = Ok ([mkDecl 100 class_ValueDecl 1; mkDecl 11 class_TypeDecl 1],
        [("Point", LookupOrdinaryName)])
  ∧ ∃ new,
      [mkDecl 100 class_ValueDecl 1; mkDecl 11 class_TypeDecl 1]
      = [mkDecl 100 class_ValueDecl 1] ++ new
      ∧ length [("Point", LookupOrdinaryName)] ≤ 2
      ∧ ∀ module0 lookupKind0 results0,
          lookupValue PointWorld module0 [] "Point" lookupKind0 results0
          = Ok (results0 ++ new, [("Point", LookupOrdinaryName)]).
Proof.
  assert (lookupValue PointWorld None [] "Point" UnqualifiedLookup
            [mkDecl 100 class_ValueDecl 1]
          = Ok ([mkDecl 100 class_ValueDecl 1; mkDecl 11 class_TypeDecl 1],
                [("Point", LookupOrdinaryName)])) as H1
    by (vm_compute; reflexivity).
  split; [exact H1|].
  exact (lookupValue_appends PointWorld _ _ _ _ _ _ _ H1).
Defined.


(** The macro [MAX] is the first result of its lookup. *)
Lemma lookupValue_macro_first_witness :
  (lookupValue PointWorld None [] "MAX" UnqualifiedLookup
     [mkDecl 11 class_TypeDecl 1]
   = Ok ([mkDecl 11 class_TypeDecl 1; mkDecl 100 class_ValueDecl 1],
         [("MAX", LookupOrdinaryName); ("MAX", LookupTagName)])
   ∧ hasMacroDefinition PointWorld "MAX" = true
   ∧ getMacroInfo PointWorld "MAX" = Some 9
   ∧ importMacro PointWorld "MAX" 9 = Some (mkDecl 100 class_ValueDecl 1))
  ∧ [mkDecl 11 class_TypeDecl 1; mkDecl 100 class_ValueDecl 1] !! 1
    = Some (mkDecl 100 class_ValueDecl 1).
Proof.
  assert (lookupValue PointWorld None [] "MAX" UnqualifiedLookup
            [mkDecl 11 class_TypeDecl 1]
          = Ok ([mkDecl 11 class_TypeDecl 1; mkDecl 100 class_ValueDecl 1],
                [("MAX", LookupOrdinaryName); ("MAX", LookupTagName)])) as H1
    by (vm_compute; reflexivity).
  assert (hasMacroDefinition PointWorld "MAX" = true) as H2 by reflexivity.
  assert (getMacroInfo PointWorld "MAX" = Some 9) as H3 by reflexivity.
  assert (importMacro PointWorld "MAX" 9 = Some (mkDecl 100 class_ValueDecl 1))
    as H4 by reflexivity.
  split; [by repeat apply conj|].
  exact (lookupValue_macro_first PointWorld _ _ _ _ _ _ _ _ _ _ _ H1 eq_refl H2 H3 H4).
Defined.

(** Of the class [Point] and the macro [MAX], the wrapper 0 has the class. *)
Lemma lookupVisibleDecls_in_module_filters_witness :
  lookupVisibleDecls PointWorld PointVisible []
  = Ok [mkDecl 11 class_TypeDecl 1; mkDecl 100 class_ValueDecl 1]
  ∧ lookupVisibleDecls_in PointWorld PointVisible (Some (ClangModule_ptr 0)) []
      UnqualifiedLookup []
    = Ok (List.filter
            (λ VD, bool_decide (getModuleContext PointVisible VD = ClangModule_ptr 0))
            [mkDecl 11 class_TypeDecl 1; mkDecl 100 class_ValueDecl 1]).
Proof.
  assert (lookupVisibleDecls PointWorld PointVisible []
          = Ok [mkDecl 11 class_TypeDecl 1; mkDecl 100 class_ValueDecl 1]) as H1
    by (vm_compute; reflexivity).
  split; [exact H1|].
  exact (lookupVisibleDecls_in_module_filters PointWorld PointVisible _ []
           UnqualifiedLookup _ H1).
Defined.

(** The macro [MAX] reaches the consumer: it is found under the name of
    the visible declaration 7. *)
Lemma lookupVisibleDecls_forwards_found_witness :
  lookupVisibleDecls_in PointWorld PointVisible None [] UnqualifiedLookup []
  = Ok [mkDecl 11 class_TypeDecl 1; mkDecl 100 class_ValueDecl 1]
  ∧ (mkDecl 100 class_ValueDecl 1
     ∈ [mkDecl 11 class_TypeDecl 1; mkDecl 100 class_ValueDecl 1]
     ↔ ∃ ND, ND ∈ Sema_LookupVisibleDecls PointVisible
         ∧ NamedDecl_getName PointVisible ND ≠ ""
         ∧ NamedDecl_isModulePrivate PointVisible ND = false
         ∧ mkDecl 100 class_ValueDecl 1
           ∈ found_by_name PointWorld (NamedDecl_getName PointVisible ND)
         ∧ passes_filter PointVisible None (mkDecl 100 class_ValueDecl 1) = true).
Proof.
  assert (lookupVisibleDecls_in PointWorld PointVisible None [] UnqualifiedLookup []
          = Ok [mkDecl 11 class_TypeDecl 1; mkDecl 100 class_ValueDecl 1]) as H1
    by (vm_compute; reflexivity).
  split; [exact H1|].
  exact (lookupVisibleDecls_forwards_found PointWorld PointVisible _ _ _ _ _ H1).
Defined.
